(** * The CSV cleaning and type-inference pipeline

    A shallow embedding of [data_cleaning.py] and [data_processing.py]:
    the identifier sanitizer, the classification predicates, the column type
    inference and coercion, the missing-data handler, the outlier filter and
    the orchestrating [clean_and_store_data].

    Modelling conventions.
    - A Python [str] is a [string] of ASCII characters; the character classes
      of [re] ([\w], [\s]), [str.isdigit] and [str.lower] are the ASCII
      ones.  Bytes above 127 are outside the modelled domain and are
      classified as neither word nor whitespace characters.
    - The connection is a catalog [gmap string relation], temporary and
      permanent tables alike.  A relation is a list of columns (name and
      storage type, both text as the engine reports them) and a list of rows,
      each row a list of nullable cells aligned with the columns.  A relation
      may have no column.  A statement raises on a catalog error (a missing
      table or column, a name already taken) or on a failing cast, and
      otherwise does what SQL says; renaming a column to its own name
      succeeds.  Registering scalar functions and the data frame with the
      engine changes no relation and is left out.
    - The data frame fetched from a relation is a copy of it, and the table
      created from the frame keeps the storage types of the relation.
    - Engine and Python floating point numbers are exact rationals [Q].
      [STDDEV_SAMP] is carried as its square, the sample variance, and the
      z-score test is evaluated on squares ([z_score_below_sqrt] relates it
      to the test with the square root).
    - An exception is a value of [exn] carried by [result]; the catalog of a
      run that raises is not observed.
    - Three things come from outside the repository and are parameters: the
      date parser of [dateutil], the text of a fetched value, and the
      engine's [CAST]. *)

From Stdlib Require Import ZArith QArith Ascii String List Bool Lia.
From Stdlib Require Import Qround Reals Qreals Psatz.
From stdpp Require Import gmap strings list pretty.

Local Open Scope string_scope.

(** ** Characters and Python string helpers *)

Module PyStr.

Definition code (c : ascii) : N := N_of_ascii c.

Definition between (lo hi : N) (c : ascii) : bool :=
  ((lo <=? code c) && (code c <=? hi))%N.

Definition is_digit (c : ascii) : bool := between 48 57 c.
Definition is_upper (c : ascii) : bool := between 65 90 c.
Definition is_lower (c : ascii) : bool := between 97 122 c.
Definition is_underscore (c : ascii) : bool := (code c =? 95)%N.
Definition is_blank (c : ascii) : bool := (code c =? 32)%N.

(** [\w] on ASCII text: letters, digits and the underscore. *)
Definition is_word (c : ascii) : bool :=
  is_digit c || is_upper c || is_lower c || is_underscore c.

(** [\s] and [str.isspace] on ASCII text: tab, line feed, vertical tab, form
    feed, carriage return, the four separators 28..31 and the space. *)
Definition is_space (c : ascii) : bool :=
  between 9 13 c || between 28 31 c || is_blank c.

(** [str.lower] on one character. *)
Definition lower_char (c : ascii) : ascii :=
  if is_upper c then ascii_of_N (code c + 32) else c.

Fixpoint keep (p : ascii -> bool) (s : string) : string :=
  match s with
  | EmptyString => EmptyString
  | String c s' => if p c then String c (keep p s') else keep p s'
  end.

Fixpoint smap (f : ascii -> ascii) (s : string) : string :=
  match s with
  | EmptyString => EmptyString
  | String c s' => String (f c) (smap f s')
  end.

Fixpoint all_chars (p : ascii -> bool) (s : string) : bool :=
  match s with
  | EmptyString => true
  | String c s' => p c && all_chars p s'
  end.

Fixpoint any_char (p : ascii -> bool) (s : string) : bool :=
  match s with
  | EmptyString => false
  | String c s' => p c || any_char p s'
  end.

Definition is_empty (s : string) : bool :=
  match s with EmptyString => true | _ => false end.

(** [s.lower()] *)
Definition lower (s : string) : string := smap lower_char s.

(** [s.replace(old, new)] for single characters, every occurrence. *)
Definition replace_char (old new : ascii) (s : string) : string :=
  smap (fun c => if Ascii.eqb c old then new else c) s.

(** [s.lstrip(chars)], [s.rstrip(chars)] and [s.strip(chars)], the set of
    stripped characters given as a predicate. *)
Fixpoint lstrip (p : ascii -> bool) (s : string) : string :=
  match s with
  | EmptyString => EmptyString
  | String c s' => if p c then lstrip p s' else s
  end.

Fixpoint rstrip (p : ascii -> bool) (s : string) : string :=
  match s with
  | EmptyString => EmptyString
  | String c s' =>
      let r := rstrip p s' in
      if is_empty r && p c then EmptyString else String c r
  end.

Definition strip (p : ascii -> bool) (s : string) : string :=
  rstrip p (lstrip p s).

Definition first_char (s : string) : option ascii :=
  match s with EmptyString => None | String c _ => Some c end.

Fixpoint last_char (s : string) : option ascii :=
  match s with
  | EmptyString => None
  | String c EmptyString => Some c
  | String _ s' => last_char s'
  end.

End PyStr.

(** ** [data_cleaning.sanitize_column_name] *)

(** [re.sub(r'[^\w\s_]', '', name)]: a character is removed unless it is a
    word character, a whitespace character or an underscore. *)
Definition re_sub_special (name : string) : string :=
  PyStr.keep (fun c => PyStr.is_word c || PyStr.is_space c || PyStr.is_underscore c) name.

Definition sanitize_column_name (name : string) : string :=
  let sanitized_name := re_sub_special name in
  let sanitized_name := PyStr.lower (PyStr.replace_char " " "_" sanitized_name) in
  let sanitized_name := PyStr.strip PyStr.is_underscore sanitized_name in
  sanitized_name.





(** ** Python's [int] and [float] constructors on text *)

Module PyNum.
Import PyStr.

Definition digit_value (c : ascii) : Z := Z.of_N (code c) - 48.

(** A digit part of a numeric literal: digits, with single underscores
    allowed between two digits.  [int_digits after_digit acc s] reads the
    whole of [s] as a digit part continuing the value [acc]. *)
Fixpoint int_digits (after_digit : bool) (acc : Z) (s : string) : option Z :=
  match s with
  | EmptyString => if after_digit then Some acc else None
  | String c s' =>
      if is_digit c then int_digits true (10 * acc + digit_value c) s'
      else if is_underscore c && after_digit then int_digits false acc s'
      else None
  end.

(** [int(s)]: surrounding whitespace is ignored, one sign is allowed.
    [None] stands for [ValueError]. *)
Definition int (s : string) : option Z :=
  match strip is_space s with
  | String "+" r => int_digits false 0 r
  | String "-" r => Z.opp <$> int_digits false 0 r
  | r => int_digits false 0 r
  end.

(** [eat_digits after_digit seen s] consumes the longest digit part at the
    head of [s]; it returns whether a digit was consumed and the rest. *)
Fixpoint eat_digits (after_digit seen : bool) (s : string) : bool * string :=
  match s with
  | String c s' =>
      if is_digit c then eat_digits true true s'
      else if is_underscore c && after_digit && from_option is_digit false (first_char s')
           then eat_digits false seen s'
      else (seen, s)
  | EmptyString => (seen, s)
  end.

Definition is_exponent_mark (c : ascii) : bool :=
  Ascii.eqb c "e" || Ascii.eqb c "E".

Definition is_sign (c : ascii) : bool :=
  Ascii.eqb c "+" || Ascii.eqb c "-".

Definition drop_sign (s : string) : string :=
  match s with
  | String c r => if is_sign c then r else s
  | EmptyString => s
  end.

(** An optional exponent, then the end of the text. *)
Definition float_exponent (s : string) : bool :=
  match s with
  | EmptyString => true
  | String c r =>
      is_exponent_mark c &&
      (let '(seen, rest) := eat_digits false false (drop_sign r) in
       seen && is_empty rest)
  end.

(** The unsigned decimal literals that [float] accepts. *)
Definition float_decimal (s : string) : bool :=
  let '(int_seen, rest) := eat_digits false false s in
  match rest with
  | String "." r =>
      let '(frac_seen, rest') := eat_digits false false r in
      (int_seen || frac_seen) && float_exponent rest'
  | _ => int_seen && float_exponent rest
  end.

Definition float_special (s : string) : bool :=
  let l := lower s in
  String.eqb l "inf" || String.eqb l "infinity" || String.eqb l "nan".

(** [float(s)] succeeds ([false] stands for [ValueError]). *)
Definition float_parses (s : string) : bool :=
  let body := drop_sign (strip is_space s) in
  float_special body || float_decimal body.

End PyNum.

(** ** [data_processing]: the classification predicates *)

Inductive pytype := py_int | py_float.

Fixpoint count_char (c : ascii) (s : string) : Z :=
  match s with
  | EmptyString => 0
  | String d s' => (if Ascii.eqb d c then 1 else 0) + count_char c s'
  end.

(** [s.replace(old, '', count)]: the first [count] occurrences are removed,
    every occurrence when [count] is negative. *)
Fixpoint remove_count (old : ascii) (count : Z) (s : string) : string :=
  match s with
  | EmptyString => EmptyString
  | String d s' =>
      if Ascii.eqb d old && negb (count =? 0)%Z
      then remove_count old (if (count <? 0)%Z then count else count - 1) s'
      else String d (remove_count old count s')
  end.

(** [val.replace('.', '', val.count('.') - 1).replace(',', '').strip()] *)
Definition normalize_number (val : string) : string :=
  PyStr.strip PyStr.is_space
    (remove_count "," (-1) (remove_count "." (count_char "." val - 1) val)).

Definition is_type (val : string) (datatype : pytype) : bool :=
  if PyStr.is_empty (PyStr.strip PyStr.is_space val) then false
  else
    let val := normalize_number val in
    match datatype with
    | py_int => bool_decide (is_Some (PyNum.int val))
    | py_float => PyNum.float_parses val
    end.

(** [int(val)] is reached only after [is_type(val, int)] has parsed the same
    text, so it does not raise ([is_integer_int_succeeds]). *)
Definition is_integer (val : string) : bool :=
  let val := normalize_number val in
  if negb (PyStr.is_empty val) && is_type val py_int then
    match PyNum.int val with
    | Some int_val => (-2147483648 <=? int_val)%Z && (int_val <=? 2147483647)%Z
    | None => false
    end
  else false.

Definition is_float (val : string) : bool :=
  let val := normalize_number val in
  negb (PyStr.is_empty val) && negb (is_integer val) && is_type val py_float.

Definition is_boolean (n : string) : bool :=
  let lowered_val := PyStr.lower (PyStr.strip PyStr.is_space n) in
  bool_decide (lowered_val ∈ ["true"; "false"; "yes"; "no"; "y"; "n"; "1"; "0"]).

(** [dateutil.parser.parse] is a third-party function: [dateutil_parse s] is
    the date it reads from [s], already printed by [strftime('%Y-%m-%d')],
    and [None] when it raises. *)
Section Dates.
Variable dateutil_parse : string -> option string.

Definition is_date (s : string) : bool :=
  if PyStr.is_empty s then false
  else match dateutil_parse s with
       | Some _ => PyStr.any_char PyStr.is_digit s
       | None => false
       end.

Definition format_date (date_str : string) : option string :=
  dateutil_parse date_str.
End Dates.

(** ** Exceptions and results *)

Inductive exn :=
  | ZeroDivisionError
  | ValueError
  | CatalogError
  | ConversionError.

Inductive result (A : Type) :=
  | Ok (a : A)
  | Raise (e : exn).
Arguments Ok {A} a.
Arguments Raise {A} e.

#[global] Instance result_ret : MRet result := @Ok.
#[global] Instance result_bind : MBind result := fun A B f m =>
  match m with
  | Ok a => f a
  | Raise e => Raise e
  end.
#[global] Instance result_fmap : FMap result := fun A B f m =>
  match m with
  | Ok a => Ok (f a)
  | Raise e => Raise e
  end.

(** [not l] on a Python list. *)
Definition is_nil {A} (l : list A) : bool :=
  match l with [] => true | _ => false end.

(** A [for] loop whose body may raise, threading the loop state. *)
Fixpoint for_each {A S} (body : S -> A -> result S) (s : S) (l : list A) : result S :=
  match l with
  | [] => Ok s
  | x :: l' => s' ← body s x; for_each body s' l'
  end.

(** ** The relational engine *)

Inductive value :=
  | VNum (q : Q)
  | VStr (s : string)
  | VBool (b : bool).

(** A cell is a value or NULL. *)
Abbreviation cell := (option value).

Record relation := Relation {
  rel_columns : list (string * string);   (* column name, storage type *)
  rel_rows : list (list cell)
}.

Abbreviation catalog := (gmap string relation).

Definition column_count (r : relation) : nat := length (rel_columns r).
Definition row_count (r : relation) : nat := length (rel_rows r).

Definition column_index (r : relation) (col : string) : option nat :=
  fst <$> list_find (fun c => c.1 = col) (rel_columns r).

Definition cell_at (i : nat) (row : list cell) : cell := mjoin (row !! i).

Definition column_cells (r : relation) (i : nat) : list cell :=
  cell_at i <$> rel_rows r.

Definition is_null (c : cell) : bool :=
  match c with None => true | Some _ => false end.

(** Statements.  Each acts on one relation and raises on a catalog error. *)

Definition sql_drop_column (col : string) (r : relation) : result relation :=
  match column_index r col with
  | None => Raise CatalogError
  | Some i => Ok (Relation (delete i (rel_columns r)) (delete i <$> rel_rows r))
  end.

Definition sql_add_column (col ty : string) (r : relation) : result relation :=
  match column_index r col with
  | Some _ => Raise CatalogError
  | None => Ok (Relation (rel_columns r ++ [(col, ty)])%list ((fun row => row ++ [None])%list <$> rel_rows r))
  end.

Definition sql_rename_column (old new : string) (r : relation) : result relation :=
  match column_index r old with
  | None => Raise CatalogError
  | Some i =>
      match column_index r new with
      | Some j => if bool_decide (i = j)
                  then Ok r
                  else Raise CatalogError
      | None =>
          Ok (Relation (alter (fun c => (new, c.2)) i (rel_columns r)) (rel_rows r))
      end
  end.

(** [DELETE FROM r WHERE condition]: the rows on which the condition is true
    go; the condition reads cells by column name. *)
Definition sql_delete_where (condition : relation -> list cell -> bool) (r : relation) : result relation :=
  Ok (Relation (rel_columns r) (List.filter (fun row => negb (condition r row)) (rel_rows r))).

(** [UPDATE r SET target = expression(source)], row by row; the statement
    fails as a whole when the expression fails on some row. *)
Definition sql_update (target source : string) (expression : cell -> option cell)
    (r : relation) : result relation :=
  match column_index r target, column_index r source with
  | Some t, Some s =>
      match mapM (fun row => v ← expression (cell_at s row); Some (<[t := v]> row)) (rel_rows r) with
      | Some rows => Ok (Relation (rel_columns r) rows)
      | None => Raise ConversionError
      end
  | _, _ => Raise CatalogError
  end.

(** Running a statement or a query against a named relation of the catalog. *)
Definition execute (conn : catalog) (relation_name : string)
    (statement : relation -> result relation) : result catalog :=
  match conn !! relation_name with
  | None => Raise CatalogError
  | Some r => r' ← statement r; Ok (<[relation_name := r']> conn)
  end.

Definition fetch {A} (conn : catalog) (relation_name : string)
    (query : relation -> result A) : result A :=
  match conn !! relation_name with
  | None => Raise CatalogError
  | Some r => query r
  end.

(** [try: conn.execute(...) except Exception: ...] *)
Definition try_execute (conn : catalog) (relation_name : string)
    (statement : relation -> result relation) : catalog :=
  match execute conn relation_name statement with
  | Ok conn' => conn'
  | Raise _ => conn
  end.

(** [CREATE TABLE name AS SELECT * FROM ...] *)
Definition create_table (conn : catalog) (name : string) (r : relation) : result catalog :=
  match conn !! name with
  | Some _ => Raise CatalogError
  | None => Ok (<[name := r]> conn)
  end.

Definition drop_table (conn : catalog) (name : string) : result catalog :=
  match conn !! name with
  | Some _ => Ok (delete name conn)
  | None => Raise CatalogError
  end.

(** Reading one column by name. *)
Definition select_column (col : string) (r : relation) : result (list cell) :=
  match column_index r col with
  | Some i => Ok (column_cells r i)
  | None => Raise CatalogError
  end.

(** *** Aggregates *)

Definition Qlt_bool (a b : Q) : bool := negb (Qle_bool b a).

Definition value_rank (v : value) : nat :=
  match v with VBool _ => 0 | VNum _ => 1 | VStr _ => 2 end.

Definition value_eqb (a b : value) : bool :=
  match a, b with
  | VNum x, VNum y => Qeq_bool x y
  | VStr x, VStr y => String.eqb x y
  | VBool x, VBool y => Bool.eqb x y
  | _, _ => false
  end.

Definition value_leb (a b : value) : bool :=
  match a, b with
  | VNum x, VNum y => Qle_bool x y
  | VStr x, VStr y => String.leb x y
  | VBool x, VBool y => implb x y
  | _, _ => (value_rank a <=? value_rank b)%nat
  end.

Definition cell_eqb (a b : cell) : bool :=
  match a, b with
  | None, None => true
  | Some x, Some y => value_eqb x y
  | _, _ => false
  end.

Fixpoint insert_sorted {A} (leb : A -> A -> bool) (x : A) (l : list A) : list A :=
  match l with
  | [] => [x]
  | y :: l' => if leb x y then x :: l else y :: insert_sorted leb x l'
  end.

(** A stable sort: equal keys keep their order of arrival. *)
Definition sort_by {A} (leb : A -> A -> bool) (l : list A) : list A :=
  foldr (insert_sorted leb) [] l.

Definition non_null (cells : list cell) : list value := omap (fun c => c) cells.

Definition numeric_values (cells : list cell) : list Q :=
  omap (fun c => match c with Some (VNum q) => Some q | _ => None end) cells.

Definition Qsum (xs : list Q) : Q := foldr Qplus 0%Q xs.

Definition Qof_nat (n : nat) : Q := inject_Z (Z.of_nat n).

(** [COUNT(col) ... WHERE col IS NOT NULL] *)
Definition COUNT (cells : list cell) : nat := length (non_null cells).

(** [AVG(col)]: NULL over no values. *)
Definition AVG (cells : list cell) : option Q :=
  let xs := numeric_values cells in
  if is_nil xs then None
  else Some (Qred (Qsum xs / Qof_nat (length xs))).

(** The sample variance, the square of [STDDEV_SAMP(col)]: NULL below two
    values. *)
Definition VAR_SAMP (cells : list cell) : option Q :=
  let xs := numeric_values cells in
  match AVG cells with
  | Some avg =>
      if (length xs <? 2)%nat then None
      else Some (Qred (Qsum ((fun x => (x - avg) * (x - avg))%Q <$> xs) / Qof_nat (length xs - 1)))
  | None => None
  end.

(** [MEDIAN(col)]: the middle value; over an even count the mean of the two
    middle numbers, or the lower of two middle values that are not numbers. *)
Definition MEDIAN (cells : list cell) : cell :=
  let vs := sort_by value_leb (non_null cells) in
  let n := length vs in
  if Nat.odd n then vs !! (n / 2)%nat
  else match vs !! (n / 2 - 1)%nat, vs !! (n / 2)%nat with
       | Some (VNum a), Some (VNum b) => Some (VNum (Qred ((a + b) / 2)))
       | lo, _ => lo
       end.

(** [SELECT col, COUNT( * ) ... GROUP BY col ORDER BY count DESC]: one group
    per distinct cell, NULL included, the groups in order of first appearance
    and then sorted by falling count. *)
Fixpoint add_to_group (c : cell) (groups : list (cell * nat)) : list (cell * nat) :=
  match groups with
  | [] => [(c, 1%nat)]
  | (k, n) :: groups' =>
      if cell_eqb k c then (k, S n) :: groups' else (k, n) :: add_to_group c groups'
  end.

Definition group_counts (cells : list cell) : list (cell * nat) :=
  sort_by (fun a b => (b.2 <=? a.2)%nat) (foldl (fun groups c => add_to_group c groups) [] cells).

(** [SELECT DISTINCT col ... WHERE col IS NOT NULL LIMIT n] *)
Fixpoint distinct (seen : list value) (vs : list value) : list value :=
  match vs with
  | [] => []
  | v :: vs' =>
      if existsb (value_eqb v) seen then distinct seen vs'
      else v :: distinct (v :: seen) vs'
  end.

Definition select_distinct_not_null (limit : nat) (cells : list cell) : list value :=
  take limit (distinct [] (non_null cells)).

(** ** [data_cleaning.handle_missing_data] *)

(** [columns.remove(column)]: the first occurrence goes. *)
Fixpoint list_remove (x : string) (l : list string) : list string :=
  match l with
  | [] => []
  | y :: l' => if String.eqb y x then l' else y :: list_remove x l'
  end.

(** The cell of a row under a column name. *)
Definition cell_of (r : relation) (row : list cell) (col : string) : cell :=
  match column_index r col with
  | Some i => cell_at i row
  | None => None
  end.

(** [" AND ".join(f"{col} IS NULL" for col in columns)] *)
Definition all_null (columns : list string) (r : relation) (row : list cell) : bool :=
  forallb (fun col => is_null (cell_of r row col)) columns.

(** Python truthiness of a fetched value. *)
Definition truthy (c : cell) : bool :=
  match c with
  | None => false
  | Some (VNum q) => negb (Qeq_bool q 0)
  | Some (VStr s) => negb (PyStr.is_empty s)
  | Some (VBool b) => b
  end.

(** [df[column] = df[column].fillna(v)] on the data frame [df]. *)
Definition fillna (column : string) (v : value) (df : relation) : relation :=
  match column_index df column with
  | Some i =>
      Relation (rel_columns df)
        ((fun row => alter (fun c => match c with None => Some v | Some _ => c end) i row)
           <$> rel_rows df)
  | None => df
  end.

Definition numeric_storage : list string := ["INTEGER"; "BIGINT"; "DOUBLE"; "DECIMAL"].

(** The loop of lines 53-57: one pass over a copy of the column list. *)
Definition drop_missing_column (relation_name : string)
    (state : catalog * list string) (column : string) : result (catalog * list string) :=
  let '(conn, columns) := state in
  count_not_null ← fetch conn relation_name (fun r => COUNT <$> select_column column r);
  if (count_not_null =? 0)%nat then
    conn ← execute conn relation_name (sql_drop_column column);
    Ok (conn, list_remove column columns)
  else Ok (conn, columns).

(** The loop of lines 78-96: one pass over [zip(columns, types)]. *)
Definition impute_column (conn : catalog) (relation_name : string)
    (df : relation) (entry : string * string) : result relation :=
  let '(column, type) := entry in
  let is_numeric := bool_decide (type ∈ numeric_storage) in
  if is_numeric then
    median_value ← fetch conn relation_name (fun r => MEDIAN <$> select_column column r);
    match median_value with
    | Some v => Ok (fillna column v df)
    | None => Raise ValueError          (* [fillna(None)] *)
    end
  else
    mode_values ← fetch conn relation_name (fun r => group_counts <$> select_column column r);
    let mode_value := match mode_values with g :: _ => g.1 | [] => None end in
    match mode_value with
    | Some v => if truthy mode_value then Ok (fillna column v df)
                else Ok (fillna column (VStr "") df)
    | None => Ok (fillna column (VStr "") df)
    end.

Definition handle_missing_data (conn : catalog) (relation_name : string)
    : result (catalog * string) :=
  described ← fetch conn relation_name (fun r => Ok (rel_columns r));
  let columns := described.*1 in
  let types := described.*2 in
  '(conn, columns) ← for_each (drop_missing_column relation_name) (conn, columns) columns;
  if is_nil columns then Ok (conn, relation_name)
  else
    conn ← execute conn relation_name (sql_delete_where (all_null columns));
    count_rows ← fetch conn relation_name (fun r => Ok (row_count r));
    if (count_rows =? 0)%nat then Ok (conn, relation_name)
    else
      df ← fetch conn relation_name Ok;
      df ← for_each (impute_column conn relation_name) df (zip columns types);
      let new_relation_name := relation_name +:+ "_cleaned" in
      conn ← create_table conn new_relation_name df;
      Ok (conn, new_relation_name).

(** ** [data_cleaning.handle_outliers] *)

Record z_score_clause := ZScore {
  zs_column : string;
  zs_avg : Q;
  zs_variance : Q;       (* the square of [stddev_col] *)
  zs_threshold : Q
}.

(** [ABS(x - avg) / stddev < threshold], with [stddev] the positive root of
    the variance: for a positive threshold this is
    [(x - avg)^2 < threshold^2 * variance], and it is false otherwise. *)
Definition z_score_below (avg variance threshold x : Q) : bool :=
  Qlt_bool 0 threshold
  && Qlt_bool ((x - avg) * (x - avg)) (threshold * threshold * variance).

(** SQL's three truth values: [None] is NULL. *)
Definition sql_and (a b : option bool) : option bool :=
  match a, b with
  | Some false, _ | _, Some false => Some false
  | Some true, Some true => Some true
  | _, _ => None
  end.

Definition sql_not (a : option bool) : option bool := negb <$> a.

Definition eval_clause (r : relation) (row : list cell) (c : z_score_clause) : option bool :=
  match cell_of r row (zs_column c) with
  | Some (VNum x) => Some (z_score_below (zs_avg c) (zs_variance c) (zs_threshold c) x)
  | _ => None
  end.

(** [NOT (c1 AND c2 AND ...)]; a row is deleted when this is true. *)
Definition outlier_condition (clauses : list z_score_clause) (r : relation) (row : list cell) : bool :=
  match sql_not (foldr (fun c acc => sql_and (eval_clause r row c) acc) (Some true) clauses) with
  | Some true => true
  | _ => false
  end.

Definition outlier_storage : list string := ["INTEGER"; "BIGINT"; "FLOAT"; "DOUBLE"].

Definition z_score_step (conn : catalog) (relation_name : string) (z_score_threshold : Q)
    (z_score_clauses : list z_score_clause) (info : string * string)
    : result (list z_score_clause) :=
  let '(column, data_type) := info in
  if bool_decide (data_type ∈ outlier_storage) then
    avg_col ← fetch conn relation_name (fun r => AVG <$> select_column column r);
    var_col ← fetch conn relation_name (fun r => VAR_SAMP <$> select_column column r);
    match avg_col, var_col with
    | Some avg, Some variance =>
        if Qeq_bool variance 0 then Ok z_score_clauses
        else Ok (z_score_clauses ++ [ZScore column avg variance z_score_threshold])%list
    | _, _ => Ok z_score_clauses
    end
  else Ok z_score_clauses.

Definition handle_outliers (conn : catalog) (relation_name : string) (z_score_threshold : Q)
    : result (catalog * string) :=
  let columns_info := from_option rel_columns [] (conn !! relation_name) in
  z_score_clauses ← for_each (z_score_step conn relation_name z_score_threshold) [] columns_info;
  if is_nil z_score_clauses then Ok (conn, relation_name)
  else
    conn ← execute conn relation_name (sql_delete_where (outlier_condition z_score_clauses));
    Ok (conn, relation_name).

Definition default_z_score_threshold : Q := 3.

(** ** [data_processing]: type inference and coercion *)

Inductive semtype := INTEGER | FLOAT | DATE | BOOLEAN | VARCHAR.

#[global] Instance semtype_eq_dec : EqDecision semtype.
Proof. solve_decision. Defined.

Definition type_name (t : semtype) : string :=
  match t with
  | INTEGER => "INTEGER"
  | FLOAT => "FLOAT"
  | DATE => "DATE"
  | BOOLEAN => "BOOLEAN"
  | VARCHAR => "VARCHAR"
  end.

Definition SAMPLE_SIZE : nat := 100.
Definition SUCCESS_THRESHOLD : Q := 1 # 2.

(** [val / len] on Python integers. *)
Definition true_divide (val len : nat) : result Q :=
  if (len =? 0)%nat then Raise ZeroDivisionError
  else Ok (Qred (Qof_nat val / Qof_nat len)).

(** [max] over a sequence of numbers; an empty sequence is a [ValueError]. *)
Definition max_number (l : list Q) : result Q :=
  match l with
  | [] => Raise ValueError
  | x :: l' => Ok (foldl (fun m y => if Qlt_bool m y then y else m) x l')
  end.

(** [max] over a sequence of type names, compared as Python compares text. *)
Definition max_key (l : list semtype) : result semtype :=
  match l with
  | [] => Raise ValueError
  | x :: l' =>
      Ok (foldl (fun m y => if String.ltb (type_name m) (type_name y) then y else m) x l')
  end.

Definition counters_init : list (semtype * nat) :=
  [(INTEGER, 0); (FLOAT, 0); (DATE, 0); (BOOLEAN, 0); (VARCHAR, 0)]%nat.

(** [counters[key] += 1] *)
Definition increment (key : semtype) (counters : list (semtype * nat)) : list (semtype * nat) :=
  (fun kv => if bool_decide (kv.1 = key) then (kv.1, S kv.2) else kv) <$> counters.

(** [{key: val / len(sample_data) for key, val in counters.items()}] *)
Definition success_rates_of (counters : list (semtype * nat)) (len : nat)
    : result (list (semtype * Q)) :=
  for_each (fun rates kv => rate ← true_divide kv.2 len; Ok (rates ++ [(kv.1, rate)])%list)
    [] counters.

Definition remove_commas (s : string) : string := remove_count "," (-1) s.

(** SQL's [TRIM]: spaces only. *)
Definition sql_trim (s : string) : string := PyStr.strip PyStr.is_blank s.

Section Engine.
(** What the code takes from outside the repository: the date parser, the
    text of a fetched value (Python's [str(data)], which is also what a
    scalar function registered with the engine receives), and the engine's
    [CAST] of a value to a named type ([None]: conversion error). *)
Variable dateutil_parse : string -> option string.
Variable str : value -> string.
Variable sql_cast : string -> value -> option value.

Definition count_value (counters : list (semtype * nat)) (data : value) : list (semtype * nat) :=
  let counters :=
    if is_integer (str data) then increment INTEGER counters
    else if is_float (str data) then increment FLOAT counters
    else counters in
  let counters :=
    if is_date dateutil_parse (str data) then increment DATE counters else counters in
  let counters :=
    if is_boolean (str data) then increment BOOLEAN counters else counters in
  counters.

Definition infer_column_type (conn : catalog) (col relation_name : string) : result semtype :=
  sample_data ← fetch conn relation_name
    (fun r => select_distinct_not_null SAMPLE_SIZE <$> select_column col r);
  let counters := foldl count_value counters_init sample_data in
  success_rates ← success_rates_of counters (length sample_data);
  max_rate ← max_number success_rates.*2;
  if Qlt_bool max_rate SUCCESS_THRESHOLD then Ok VARCHAR
  else max_key (List.filter (fun kv => Qeq_bool kv.2 max_rate) success_rates).*1.

(** The value a cast expression stores in a column of type [ty]. *)
Definition stored (ty : semtype) (v : value) : option cell :=
  Some <$> sql_cast (type_name ty) v.

(** [TRANSFORMATION_LOGIC[type]] applied to the old cell of a row.  The
    replacement value is spliced into the statement text; the outer [None]
    is a failing cast. *)
Definition TRANSFORMATION_LOGIC (ty : semtype) (replacement : value) (c : cell) : option cell :=
  match ty, c with
  | INTEGER, None => stored INTEGER replacement
  | INTEGER, Some v =>
      if PyStr.is_empty (sql_trim (str v)) || negb (is_integer (str v))
      then stored INTEGER replacement
      else stored INTEGER (VStr (remove_commas (str v)))
  | FLOAT, None => stored FLOAT replacement
  | FLOAT, Some v =>
      if PyStr.is_empty (sql_trim (str v)) || negb (is_float (str v))
      then stored FLOAT replacement
      else stored FLOAT (VStr (remove_commas (str v)))
  | BOOLEAN, Some v =>
      if is_boolean (str v) then stored BOOLEAN v else Some None
  | DATE, Some v =>
      if is_date dateutil_parse (str v)
      then match format_date dateutil_parse (str v) with
           | Some d => stored DATE (VStr d)
           | None => Some None
           end
      else Some None
  | VARCHAR, Some v => stored VARCHAR v
  | _, None => Some None
  end.

(** The cells [CAST(REPLACE(col, ',', '') AS ty)] of the rows that pass
    [keep]; a failing cast fails the query. *)
Definition cast_matching (ty : semtype) (keep : string -> bool) (cells : list cell)
    : result (list cell) :=
  for_each (fun acc c =>
      match c with
      | Some v =>
          if keep (str v)
          then match sql_cast (type_name ty) (VStr (remove_commas (str v))) with
               | Some w => Ok (acc ++ [Some w])%list
               | None => Raise ConversionError
               end
          else Ok acc
      | None => Ok acc
      end) [] cells.

Definition compute_mean_or_median (conn : catalog) (col relation_name : string)
    (datatype : semtype) : result cell :=
  match datatype with
  | FLOAT =>
      fetch conn relation_name (fun r =>
        cells ← select_column col r;
        casted ← cast_matching FLOAT is_float cells;
        Ok (VNum <$> AVG casted))
  | INTEGER =>
      fetch conn relation_name (fun r =>
        cells ← select_column col r;
        casted ← cast_matching INTEGER is_integer cells;
        Ok (MEDIAN casted))
  | _ => Raise ValueError
  end.

Definition table_exists (conn : catalog) (table_name : string) : bool :=
  bool_decide (is_Some (conn !! table_name)).

Definition get_columns (conn : catalog) (table_name : string) : result (list string) :=
  fetch conn table_name (fun r => Ok (rel_columns r).*1).

(** The [UPDATE] of lines 165-168.  A replacement that is [None] prints as
    the bare word [None], which the engine cannot bind: the statement then
    fails whatever the rows hold. *)
Definition update_statement (col : string) (inferred_type : semtype)
    (value_to_replace : cell) (r : relation) : result relation :=
  match inferred_type, value_to_replace with
  | (INTEGER | FLOAT), None => Raise CatalogError
  | _, _ =>
      sql_update (col +:+ "_new") col
        (TRANSFORMATION_LOGIC inferred_type (default (VStr "") value_to_replace)) r
  end.

(** The body of the loop of lines 147-175. *)
Definition set_datatype (relation_name : string)
    (state : catalog * list (string * semtype)) (col : string)
    : result (catalog * list (string * semtype)) :=
  let '(conn, inferred_columns) := state in
  inferred_type ← infer_column_type conn col relation_name;
  let inferred_columns := (inferred_columns ++ [(col, inferred_type)])%list in
  value_to_replace ←
    (if bool_decide (inferred_type ∈ [INTEGER; FLOAT])
     then compute_mean_or_median conn col relation_name inferred_type
     else Ok None);
  let conn := try_execute conn relation_name
                (sql_add_column (col +:+ "_new") (type_name inferred_type)) in
  let conn := try_execute conn relation_name
                (update_statement col inferred_type value_to_replace) in
  let conn :=
    match execute conn relation_name (sql_drop_column col) with
    | Ok conn' => try_execute conn' relation_name (sql_rename_column (col +:+ "_new") col)
    | Raise _ => conn
    end in
  Ok (conn, inferred_columns).

Definition infer_and_set_datatypes (conn : catalog) (relation_name : string)
    : result (catalog * (string * list (string * semtype))) :=
  if negb (table_exists conn relation_name) then Raise ValueError
  else
    columns ← get_columns conn relation_name;
    '(conn, inferred_columns) ←
      for_each (set_datatype relation_name) (conn, []) columns;
    Ok (conn, (relation_name, inferred_columns)).

(** ** [data_cleaning.clean_and_store_data] *)

(** [name.rsplit('.', 1)[0]] *)
Fixpoint before_last_dot (s : string) : option string :=
  match s with
  | EmptyString => None
  | String c s' =>
      match before_last_dot s' with
      | Some h => Some (String c h)
      | None => if Ascii.eqb c "." then Some EmptyString else None
      end
  end.

Definition rsplit_head (s : string) : string := default s (before_last_dot s).

(** [re.sub(r'\W|^(?=\d)', '', ....replace(' ', '_')).lower()] *)
Definition base_filename (filename : string) : string :=
  PyStr.lower (PyStr.keep PyStr.is_word (PyStr.replace_char " " "_" (rsplit_head filename))).

Definition make_upload_id (filename timestamp temp_suffix : string) : string :=
  base_filename filename +:+ "_" +:+ timestamp +:+ "_" +:+ temp_suffix.

(** The loop of lines 180-183. *)
Definition rename_sanitized (relation_name : string) (conn : catalog) (old_column_name : string)
    : result catalog :=
  let new_column_name := sanitize_column_name old_column_name in
  execute conn relation_name (sql_rename_column old_column_name new_column_name).

(** [SELECT * ... LIMIT 100], boolean columns of the frame turned into
    integers; a column of the frame is boolean when its storage type is and
    no fetched cell is NULL. *)
Definition bool_to_int (c : cell) : cell :=
  match c with
  | Some (VBool b) => Some (VNum (if b then 1 else 0))
  | _ => c
  end.

Definition sample_of (r : relation) : relation :=
  let rows := take 100 (rel_rows r) in
  let is_bool_column (i : nat) :=
    bool_decide (snd <$> rel_columns r !! i = Some "BOOLEAN")
    && forallb (fun row => negb (is_null (cell_at i row))) rows in
  Relation (rel_columns r)
    ((fun row => imap (fun i c => if is_bool_column i then bool_to_int c else c) row) <$> rows).

(** [parsed] is what [read_csv_auto] makes of the file, [None] when the
    file is not parseable CSV; the clock and the random suffix are inputs.
    The result carries [None] for the pair [(None, None)]. *)
Definition clean_and_store_data (parsed : option relation)
    (filename timestamp temp_suffix : string) (conn : catalog)
    : result (catalog * option (string * relation)) :=
  match parsed with
  | None => Ok (conn, None)
  | Some raw =>
      let upload_id := make_upload_id filename timestamp temp_suffix in
      let relation_name := "tmp_" +:+ upload_id in
      conn ← create_table conn relation_name raw;
      columns_info ← get_columns conn relation_name;
      conn ← for_each (rename_sanitized relation_name) conn columns_info;
      '(conn, relation_after_missing_data) ← handle_missing_data conn relation_name;
      '(conn, relation_after_outliers) ←
        handle_outliers conn relation_after_missing_data default_z_score_threshold;
      '(conn, _) ← infer_and_set_datatypes conn relation_after_outliers;
      final ← fetch conn relation_after_outliers Ok;
      conn ← create_table conn upload_id final;
      sample_data ← fetch conn upload_id (fun r => Ok (sample_of r));
      conn ← drop_table conn relation_name;
      Ok (conn, Some (upload_id, sample_data))
  end.

End Engine.

(** ** Notions used to state the properties *)






(** A counter of the dictionary, zero for a missing key. *)
Definition counter (key : semtype) (counters : list (semtype * nat)) : nat :=
  default 0%nat (snd <$> (snd <$> list_find (fun kv => kv.1 = key) counters)).

Section Rates.
Variable dateutil_parse : string -> option string.
Variable str : value -> string.

(** Whether a sampled value counts toward a type. *)
Definition counts_toward (t : semtype) (data : value) : bool :=
  match t with
  | INTEGER => is_integer (str data)
  | FLOAT => negb (is_integer (str data)) && is_float (str data)
  | DATE => is_date dateutil_parse (str data)
  | BOOLEAN => is_boolean (str data)
  | VARCHAR => false
  end.

Definition matches (t : semtype) (sample_data : list value) : nat :=
  length (List.filter (counts_toward t) sample_data).

(** The success rate of a type over a sample: matches / sample size. *)
Definition success_rate (t : semtype) (sample_data : list value) : Q :=
  Qof_nat (matches t sample_data) / Qof_nat (length sample_data).
End Rates.

(** ** Instances of the outside functions, for running the model *)

(** Python's [str] on a fetched value: text as it is, a whole number as an
    [int] prints, a boolean as [True] or [False].  A number that is not whole
    is printed as a quotient. *)
Definition str_of_value (v : value) : string :=
  match v with
  | VStr s => s
  | VNum q => if (Zpos (Qden q) =? 1)%Z then pretty (Qnum q)
              else pretty (Qnum q) +:+ "/" +:+ pretty (Zpos (Qden q))
  | VBool b => if b then "True" else "False"
  end.

(** A date parser that reads ISO dates [YYYY-MM-DD] and nothing else. *)
Definition iso_date_parse (s : string) : option string :=
  match s with
  | String y1 (String y2 (String y3 (String y4 (String "-"
      (String m1 (String m2 (String "-" (String d1 (String d2 EmptyString))))))))) =>
      if forallb PyStr.is_digit [y1; y2; y3; y4; m1; m2; d1; d2] then Some s else None
  | _ => None
  end.

(** A [CAST] that rounds a number to the nearest integer for INTEGER, reads
    integer text for INTEGER and FLOAT, prints for VARCHAR, and keeps every
    other value as it is. *)
Definition simple_cast (ty : string) (v : value) : option value :=
  if String.eqb ty "INTEGER" || String.eqb ty "FLOAT" then
    match v with
    | VNum q => if String.eqb ty "INTEGER"
                then Some (VNum (inject_Z (Qfloor (q + (1 # 2)))))
                else Some (VNum q)
    | VStr s => (fun z => VNum (inject_Z z)) <$> PyNum.int s
    | VBool b => Some (VNum (if b then 1 else 0))
    end
  else if String.eqb ty "VARCHAR" then Some (VStr (str_of_value v))
  else Some v.

(** The dictionary of counters with the five keys in their order. *)
Definition counters_dict (a b c d e : nat) : list (semtype * nat) :=
  [(INTEGER, a); (FLOAT, b); (DATE, c); (BOOLEAN, d); (VARCHAR, e)].

(** ** Example relations *)

Definition num (z : Z) : cell := Some (VNum (inject_Z z)).
Definition text (s : string) : cell := Some (VStr s).

(** Scenario 3 of the specification: one numeric column. *)
Definition scenario3 : relation :=
  Relation [("amount", "BIGINT")] [[num 9]; [num 10]; [num 11]; [num 10]; [num 100000]].

(** A relation whose first column is empty and whose second column has a
    gap: the median of [b] is 3, its most frequent value is 1. *)
Definition gap_after_empty_column : relation :=
  Relation [("a", "VARCHAR"); ("b", "BIGINT"); ("c", "BIGINT")]
    [[None; num 1; num 7];
     [None; num 1; num 7];
     [None; num 5; num 7];
     [None; num 9; num 7];
     [None; None; num 7]].

(** A text column in which NULL is the most frequent cell. *)
Definition mostly_missing_text : relation :=
  Relation [("city", "VARCHAR"); ("id", "BIGINT")]
    [[text "x"; num 1]; [None; num 2]; [None; num 3]].

(** A relation whose only column is empty. *)
Definition all_missing : relation :=
  Relation [("a", "VARCHAR")] [[None]; [None]].

(** The [k] by [k] table with 1 on the diagonal and 0 elsewhere, under the
    headers [Col 0], [Col 1], ... *)
Definition identity_table (k : nat) : relation :=
  Relation ((fun i => ("Col " +:+ pretty i, "BIGINT")) <$> seq 0 k)
    ((fun i => (fun j => num (if (i =? j)%nat then 1 else 0)) <$> seq 0 k) <$> seq 0 k).

(** A small upload with a header to sanitize, an empty column and an empty
    row. *)
Definition people_csv : relation :=
  Relation [("Name", "VARCHAR"); ("Age ", "BIGINT"); ("Notes", "VARCHAR")]
    [[text "ann"; num 25; None];
     [text "bob"; num 30; None];
     [None; None; None];
     [text "cy"; None; None]].

(** The square of a rational. *)
Definition sq (x : Q) : Q := (x * x)%Q.

(** A clause built by the loop of [handle_outliers] from a column of [r]. *)
Definition clause_of (r : relation) (c : z_score_clause) : Prop :=
  exists i,
    column_index r (zs_column c) = Some i
    /\ AVG (column_cells r i) = Some (zs_avg c)
    /\ VAR_SAMP (column_cells r i) = Some (zs_variance c)
    /\ Qeq_bool (zs_variance c) 0 = false
    /\ zs_threshold c = default_z_score_threshold.


(** * More of the code *)

(** ** Text helpers of the cleaning and request code *)

(** [data_cleaning.escape_string]: [value.replace("'", "''")] *)
Fixpoint escape_string (value : string) : string :=
  match value with
  | EmptyString => EmptyString
  | String c s =>
      if Ascii.eqb c "'" then String "'" (String "'" (escape_string s))
      else String c (escape_string s)
  end.

(** The text after the last occurrence of [c]; [None] when [c] does not
    occur.  [s.rsplit(c, 1)[1]] and [s.split(c)[-1]] are read from it. *)
Fixpoint after_last (c : ascii) (s : string) : option string :=
  match s with
  | EmptyString => None
  | String d s' =>
      match after_last c s' with
      | Some t => Some t
      | None => if Ascii.eqb d c then Some s' else None
      end
  end.

Definition ALLOWED_EXTENSIONS : list string := ["csv"].

(** [file_utils.allowed_file] and [app.allowed_file]:
    ['.' in file and file.rsplit('.', 1)[1].lower() in ALLOWED_EXTENSIONS] *)
Definition allowed_file (file : string) : bool :=
  match after_last "." file with
  | None => false
  | Some extension => bool_decide (PyStr.lower extension ∈ ALLOWED_EXTENSIONS)
  end.

(** [s.endswith(suffix)]: some tail of [s] is [suffix]. *)
Fixpoint endswith (suffix s : string) : bool :=
  String.eqb s suffix
  || match s with
     | EmptyString => false
     | String _ s' => endswith suffix s'
     end.

(** [download_url.split("/")[-1]], the file name that [app.select_dataset]
    gives to the downloaded file. *)
Definition url_filename (download_url : string) : string :=
  default download_url (after_last "/" download_url).

(** [re.sub(r"[^a-zA-Z0-9]+", " ", text)]: each maximal run of characters
    other than letters and digits becomes one space. *)
Definition is_alnum (c : ascii) : bool :=
  PyStr.is_digit c || PyStr.is_upper c || PyStr.is_lower c.

Fixpoint sub_non_alnum_runs (in_run : bool) (s : string) : string :=
  match s with
  | EmptyString => EmptyString
  | String c s' =>
      if is_alnum c then String c (sub_non_alnum_runs false s')
      else if in_run then sub_non_alnum_runs true s'
      else String " " (sub_non_alnum_runs true s')
  end.

(** [s.split()]: the maximal runs of characters that are not whitespace.
    [split_go s] is the word that starts [s], if one does, and the words
    after it. *)
Definition cons_word (w : string) (ws : list string) : list string :=
  if PyStr.is_empty w then ws else w :: ws.

Fixpoint split_go (s : string) : string * list string :=
  match s with
  | EmptyString => (EmptyString, [])
  | String c s' =>
      let '(w, ws) := split_go s' in
      if PyStr.is_space c then (EmptyString, cons_word w ws)
      else (String c w, ws)
  end.

Definition py_split (s : string) : list string :=
  let '(w, ws) := split_go s in cons_word w ws.

(** [sep.join(words)] *)
Fixpoint join (sep : string) (words : list string) : string :=
  match words with
  | [] => EmptyString
  | [w] => w
  | w :: ws => w +:+ sep +:+ join sep ws
  end.

(** The search text built in [app.search]:
    ["+".join(re.sub(r"[^a-zA-Z0-9]+", " ", keywords).split())] *)
Definition search_query (keywords : string) : string :=
  join "+" (py_split (sub_non_alnum_runs false keywords)).

(** Two neighbouring characters [c] somewhere in [s]. *)
Fixpoint has_double (c : ascii) (s : string) : bool :=
  match s with
  | String a ((String b _) as s') => (Ascii.eqb a c && Ascii.eqb b c) || has_double c s'
  | _ => false
  end.

(** ** [query_processing.search_hdx_database] *)

Record resource := Resource {
  res_description : string;
  res_download_url : string
}.

Record package := Package {
  pkg_id : string;
  pkg_title : string;
  pkg_resources : list resource
}.

Record dataset := Dataset {
  ds_id : string;
  ds_title : string;
  ds_description : string;
  ds_download_url : string
}.

(** The loop over the packages of the answer; [None] stands for the
    [IndexError] of [result['resources'][0]] on a package without
    resources. *)
Fixpoint search_results (data : list package) : option (list dataset) :=
  match data with
  | [] => Some []
  | result :: data' =>
      match pkg_resources result with
      | [] => None
      | first :: _ =>
          let download_url := res_download_url first in
          results ← search_results data';
          if endswith ".csv" (PyStr.lower download_url)
          then Some (Dataset (pkg_id result) (pkg_title result)
                       (res_description first) download_url :: results)
          else Some results
      end
  end.

(** ** [data_processing.get_sql_query]: reading the query out of the answer *)

(** [s] without the prefix [pat], when it starts with it. *)
Fixpoint strip_prefix (pat s : string) : option string :=
  match pat, s with
  | EmptyString, _ => Some s
  | String p pat', String c s' => if Ascii.eqb p c then strip_prefix pat' s' else None
  | String _ _, EmptyString => None
  end.

(** The text before and after the first occurrence of [pat] in [s]. *)
Fixpoint split_first (pat s : string) : option (string * string) :=
  match strip_prefix pat s with
  | Some rest => Some (EmptyString, rest)
  | None =>
      match s with
      | EmptyString => None
      | String c s' => prod_map (String c) (fun r => r) <$> split_first pat s'
      end
  end.

(** [re.search("###(.*?)###", sql_query, re.DOTALL)] and its group 1: the
    text between the first marker and the next one. *)
Definition search_marked (sql_query : string) : option string :=
  '(_, rest) ← split_first "###" sql_query;
  '(group, _) ← split_first "###" rest;
  Some group.

(** [content] is the text of the model's answer. *)
Definition get_sql_query (content : string) : option string :=
  let sql_query := PyStr.strip PyStr.is_space content in
  PyStr.strip PyStr.is_space <$> search_marked sql_query.

(** A word of the search text: not empty, letters and digits only. *)
Definition search_word (w : string) : Prop :=
  w <> EmptyString /\ PyStr.all_chars is_alnum w = true.

(** A text without the character [#]. *)
Definition no_hash (s : string) : bool :=
  PyStr.all_chars (fun c => negb (Ascii.eqb c "#")) s.

(** The order of the type names as Python compares text:
    BOOLEAN < DATE < FLOAT < INTEGER < VARCHAR. *)
Definition name_rank (t : semtype) : nat :=
  match t with
  | BOOLEAN => 0
  | DATE => 1
  | FLOAT => 2
  | INTEGER => 3
  | VARCHAR => 4
  end.

(** A column of three text values of which two read as whole numbers and as
    booleans. *)
Definition flag_table : catalog :=
  {[ "t" := Relation [("flag", "VARCHAR")]
              [[Some (VStr "1")]; [Some (VStr "0")]; [Some (VStr "x")]] ]}.



(** A parsed sheet of two text columns: ages, one of them not a number, and
    names. *)
Definition ages_table : relation :=
  Relation [("age", "VARCHAR"); ("name", "VARCHAR")]
    [[text "25"; text "ann"]; [text "31"; text "bob"]; [text "n/a"; text "cy"]].

(** The column description that a list of inferred columns stands for. *)
Definition described_as (inferred_columns : list (string * semtype)) : list (string * string) :=
  (fun p => (p.1, type_name p.2)) <$> inferred_columns.

(** Whether a run returned, and whether an upload returned an identifier. *)
Definition is_Ok {A} (m : result A) : bool :=
  match m with Ok _ => true | Raise _ => false end.


(** * Properties *)

(** ** The sanitizer *)

Section StringFacts.
Import PyStr.
Implicit Types (p q : ascii -> bool) (f : ascii -> ascii) (s : string).



Lemma all_chars_weaken p q s :
  (forall c, p c = true -> q c = true) ->
  all_chars p s = true -> all_chars q s = true.
Proof.
  intros Hpq. induction s as [|c s IH]; simpl; [done|].
  intros [Hc Hs]%andb_true_iff. rewrite (Hpq _ Hc). auto.
Qed.



Lemma all_chars_lstrip p q s :
  all_chars p s = true -> all_chars p (lstrip q s) = true.
Proof.
  induction s as [|c s IH]; simpl; [done|].
  intros H. destruct (q c); [|done].
  apply andb_true_iff in H as [_ Hs]. auto.
Qed.

Lemma all_chars_rstrip p q s :
  all_chars p s = true -> all_chars p (rstrip q s) = true.
Proof.
  induction s as [|c s IH]; simpl; [done|].
  intros [Hc Hs]%andb_true_iff.
  destruct (is_empty (rstrip q s) && q c); simpl; [done|].
  rewrite Hc. auto.
Qed.

Lemma all_chars_strip p q s :
  all_chars p s = true -> all_chars p (strip q s) = true.
Proof. intros H. apply all_chars_rstrip, all_chars_lstrip, H. Qed.

(** What is left of a string after [lstrip] starts outside the stripped
    set, and after [rstrip] ends outside it. *)
Lemma first_char_lstrip p s c :
  first_char (lstrip p s) = Some c -> p c = false.
Proof.
  induction s as [|d s IH]; simpl; [done|].
  destruct (p d) eqn:Hd; [done|]. simpl. congruence.
Qed.

Lemma last_char_rstrip p s c :
  last_char (rstrip p s) = Some c -> p c = false.
Proof.
  induction s as [|d s IH]; simpl; [done|].
  destruct (rstrip p s) as [|e r] eqn:Hr; simpl.
  - destruct (p d) eqn:Hd; simpl; [done|]. congruence.
  - exact IH.
Qed.

Lemma first_char_rstrip p s c :
  first_char (rstrip p s) = Some c -> first_char s = Some c.
Proof.
  destruct s as [|d s]; simpl; [done|].
  destruct (is_empty (rstrip p s) && p d); simpl; done.
Qed.

Lemma lstrip_fixed p s :
  (forall c, first_char s = Some c -> p c = false) -> lstrip p s = s.
Proof.
  destruct s as [|d s]; simpl; [done|].
  intros H. rewrite (H d); done.
Qed.

Lemma rstrip_fixed p s :
  (forall c, last_char s = Some c -> p c = false) -> rstrip p s = s.
Proof.
  induction s as [|d s IH]; simpl; [done|].
  intros H. destruct s as [|e s].
  - simpl. rewrite (H d); done.
  - rewrite IH by exact H. done.
Qed.

Lemma first_char_strip p s c :
  first_char (strip p s) = Some c -> p c = false.
Proof. intros H%first_char_rstrip. eapply first_char_lstrip, H. Qed.

Lemma last_char_strip p s c :
  last_char (strip p s) = Some c -> p c = false.
Proof. apply last_char_rstrip. Qed.

Lemma strip_fixed p s :
  (forall c, first_char s = Some c -> p c = false) ->
  (forall c, last_char s = Some c -> p c = false) ->
  strip p s = s.
Proof.
  intros Hf Hl. unfold strip. rewrite (lstrip_fixed _ _ Hf). apply rstrip_fixed, Hl.
Qed.

Lemma strip_idempotent p s : strip p (strip p s) = strip p s.
Proof.
  apply strip_fixed; [apply first_char_strip | apply last_char_strip].
Qed.
End StringFacts.

Ltac by_cases_on_char c :=
  destruct c as [[] [] [] [] [] [] [] []]; vm_compute; try reflexivity; try discriminate.
















(** ** The classification predicates *)

(** [is_integer] calls [int(val)] after [is_type(val, int)] has parsed the
    text once more normalized; normalizing is idempotent, so that call
    cannot raise. *)
Lemma remove_count_zero c s : remove_count c 0 s = s.
Proof.
  induction s as [|d s IH]; simpl; [done|].
  rewrite andb_false_r, IH. done.
Qed.

Lemma remove_count_absent c k s : count_char c s = 0%Z -> remove_count c k s = s.
Proof.
  assert (forall t, 0 <= count_char c t)%Z as Hpos.
  { induction t as [|d t IH]; simpl; [lia|]. destruct (Ascii.eqb d c); lia. }
  revert k. induction s as [|d s IH]; intros k; simpl; [done|].
  pose proof (Hpos s). destruct (Ascii.eqb d c); simpl; [lia|].
  intros H0. rewrite IH by lia. done.
Qed.

Lemma count_char_nonneg c s : (0 <= count_char c s)%Z.
Proof. induction s as [|d s IH]; simpl; [lia|]. destruct (Ascii.eqb d c); lia. Qed.

Lemma count_char_remove_all c s k : (k < 0)%Z -> count_char c (remove_count c k s) = 0%Z.
Proof.
  intros Hk. induction s as [|d s IH]; simpl; [done|].
  destruct (Ascii.eqb d c) eqn:Hd; simpl.
  - assert ((k =? 0)%Z = false) as -> by lia. simpl.
    assert ((k <? 0)%Z = true) as -> by lia. exact IH.
  - rewrite Hd. lia.
Qed.

Lemma count_char_remove_first c s : forall k,
  (0 <= k <= count_char c s)%Z ->
  count_char c (remove_count c k s) = (count_char c s - k)%Z.
Proof.
  induction s as [|d s IH]; intros k Hk; simpl in *; [lia|].
  destruct (Ascii.eqb d c) eqn:Hd; simpl.
  - destruct (k =? 0)%Z eqn:Hk0; simpl.
    + apply Z.eqb_eq in Hk0. subst k. rewrite Hd, remove_count_zero. lia.
    + assert ((k <? 0)%Z = false) as -> by lia. rewrite IH by lia. lia.
  - rewrite Hd, IH by lia. lia.
Qed.

Lemma count_char_remove_other c d k s :
  c <> d -> count_char c (remove_count d k s) = count_char c s.
Proof.
  intros Hne. revert k. induction s as [|e s IH]; intros k; simpl; [done|].
  destruct (Ascii.eqb e d) eqn:Hed; simpl.
  - apply Ascii.eqb_eq in Hed. subst e.
    assert (Ascii.eqb d c = false) as Hdc by (apply Ascii.eqb_neq; congruence).
    destruct (negb (k =? 0)%Z); simpl; rewrite ?Hdc, IH; done.
  - rewrite IH. done.
Qed.

Lemma count_char_lstrip c p s :
  p c = false -> count_char c (PyStr.lstrip p s) = count_char c s.
Proof.
  intros Hc. induction s as [|d s IH]; simpl; [done|].
  destruct (p d) eqn:Hd; [|done].
  rewrite IH. assert (Ascii.eqb d c = false) as ->; [|done].
  apply Ascii.eqb_neq. congruence.
Qed.

Lemma count_char_rstrip c p s :
  p c = false -> count_char c (PyStr.rstrip p s) = count_char c s.
Proof.
  intros Hc. induction s as [|d s IH]; simpl; [done|].
  destruct (PyStr.rstrip p s) as [|e r] eqn:Hr; simpl in *.
  - destruct (p d) eqn:Hd; simpl.
    + assert (Ascii.eqb d c = false) as ->; [|lia].
      apply Ascii.eqb_neq. congruence.
    + lia.
  - rewrite IH. done.
Qed.

Lemma count_char_strip c p s :
  p c = false -> count_char c (PyStr.strip p s) = count_char c s.
Proof.
  intros Hc. unfold PyStr.strip. rewrite count_char_rstrip, count_char_lstrip; done.
Qed.

Lemma normalize_number_idempotent val :
  normalize_number (normalize_number val) = normalize_number val.
Proof.
  unfold normalize_number at 1.
  set (t := normalize_number val).
  assert (count_char "," t = 0%Z) as Hcomma.
  { unfold t, normalize_number. rewrite count_char_strip by reflexivity.
    apply count_char_remove_all. lia. }
  assert (0 <= count_char "." t <= 1)%Z as Hdot.
  { split; [apply count_char_nonneg|].
    unfold t, normalize_number. rewrite count_char_strip by reflexivity.
    rewrite count_char_remove_other by discriminate.
    pose proof (count_char_nonneg "." val) as Hpos.
    destruct (Z.eq_dec (count_char "." val) 0%Z) as [H0|H0].
    - rewrite H0. simpl. rewrite count_char_remove_all; lia.
    - rewrite count_char_remove_first; lia. }
  assert (remove_count "." (count_char "." t - 1) t = t) as ->.
  { destruct (Z.eq_dec (count_char "." t) 0%Z) as [H0|H0].
    - apply remove_count_absent, H0.
    - replace (count_char "." t - 1)%Z with 0%Z by lia. apply remove_count_zero. }
  rewrite (remove_count_absent _ _ _ Hcomma).
  unfold t, normalize_number. apply strip_idempotent.
Qed.

Lemma is_integer_int_succeeds val :
  is_type (normalize_number val) py_int = true ->
  is_Some (PyNum.int (normalize_number val)).
Proof.
  unfold is_type. destruct (PyStr.is_empty _); [discriminate|].
  rewrite normalize_number_idempotent. intros H. by apply bool_decide_eq_true in H.
Qed.

(** C7.  The text 2147483647 passes [is_integer] and is counted as INTEGER;
    2147483648 is outside the signed 32-bit range, fails [is_integer], passes
    [is_float] and is counted as FLOAT. *)
Theorem int32_range_boundary :
  is_integer "2147483647" = true
  /\ is_integer "2147483648" = false
  /\ is_float "2147483648" = true
  /\ (forall dateutil_parse,
        let counters :=
          count_value dateutil_parse str_of_value counters_init (VStr "2147483647") in
        counter INTEGER counters = 1%nat /\ counter FLOAT counters = 0%nat)
  /\ (forall dateutil_parse,
        let counters :=
          count_value dateutil_parse str_of_value counters_init (VStr "2147483648") in
        counter INTEGER counters = 0%nat /\ counter FLOAT counters = 1%nat).
Proof.
  split; [reflexivity|]. split; [reflexivity|]. split; [reflexivity|].
  split; intros dp; unfold count_value; simpl str_of_value.
  - change (is_integer "2147483647") with true.
    change (is_boolean "2147483647") with false.
    cbv iota. destruct (is_date dp "2147483647"); split; reflexivity.
  - change (is_integer "2147483648") with false.
    change (is_float "2147483648") with true.
    change (is_boolean "2147483648") with false.
    cbv iota. destruct (is_date dp "2147483648"); split; reflexivity.
Qed.

(** ** Type inference *)

Lemma Qlt_bool_iff (a b : Q) : Qlt_bool a b = true <-> (a < b)%Q.
Proof.
  unfold Qlt_bool. rewrite negb_true_iff. split.
  - intros H. apply Qnot_le_lt. intros Hle. apply Qle_bool_iff in Hle. congruence.
  - intros H. destruct (Qle_bool b a) eqn:Hle; [|done].
    apply Qle_bool_iff in Hle. exfalso. eapply Qlt_not_le; eauto.
Qed.

Lemma max_number_In (l : list Q) (m : Q) : max_number l = Ok m -> In m l.
Proof.
  destruct l as [|x l]; simpl; [done|]. intros [= <-].
  revert x. induction l as [|y l IH]; intros x; simpl; [auto|].
  destruct (IH (if Qlt_bool x y then y else x)) as [H|H]; [|auto].
  rewrite <- H. destruct (Qlt_bool x y); auto.
Qed.

Lemma max_key_of_maximum (rates : list (semtype * Q)) (m : Q) :
  max_number rates.*2 = Ok m ->
  exists ty, max_key (List.filter (fun kv => Qeq_bool kv.2 m) rates).*1 = Ok ty.
Proof.
  intros Hin%max_number_In.
  assert (exists kv, In kv (List.filter (fun kv => Qeq_bool kv.2 m) rates)) as [kv Hkv].
  { apply in_map_iff in Hin as ([k q] & Hq & Hkq). simpl in Hq. subst q.
    exists (k, m). apply filter_In. split; [done|]. simpl.
    apply Qeq_bool_iff. reflexivity. }
  destruct (List.filter _ rates) as [|kv' l]; [destruct Hkv|].
  simpl. eauto.
Qed.

Section InferenceFacts.
Variable dateutil_parse : string -> option string.
Variable str : value -> string.

Lemma count_value_dict a b c d e data :
  count_value dateutil_parse str (counters_dict a b c d e) data
  = counters_dict
      (a + Nat.b2n (counts_toward dateutil_parse str INTEGER data))
      (b + Nat.b2n (counts_toward dateutil_parse str FLOAT data))
      (c + Nat.b2n (counts_toward dateutil_parse str DATE data))
      (d + Nat.b2n (counts_toward dateutil_parse str BOOLEAN data))
      e.
Proof.
  unfold count_value, counts_toward.
  destruct (is_integer (str data)); destruct (is_float (str data));
    destruct (is_date dateutil_parse (str data)); destruct (is_boolean (str data));
    vm_compute; rewrite ?Nat.add_0_r, ?Nat.add_1_r; reflexivity.
Qed.

Lemma matches_cons t data l :
  matches dateutil_parse str t (data :: l)
  = (Nat.b2n (counts_toward dateutil_parse str t data) + matches dateutil_parse str t l)%nat.
Proof.
  unfold matches. simpl. destruct (counts_toward dateutil_parse str t data); reflexivity.
Qed.

Lemma matches_VARCHAR l : matches dateutil_parse str VARCHAR l = 0%nat.
Proof. induction l as [|data l IH]; [done|]. rewrite matches_cons, IH. done. Qed.

(** The loop counts, for each key, the sampled values that count toward
    it. *)
Lemma foldl_count_value sample_data : forall a b c d e,
  foldl (count_value dateutil_parse str) (counters_dict a b c d e) sample_data
  = counters_dict
      (a + matches dateutil_parse str INTEGER sample_data)
      (b + matches dateutil_parse str FLOAT sample_data)
      (c + matches dateutil_parse str DATE sample_data)
      (d + matches dateutil_parse str BOOLEAN sample_data)
      e.
Proof.
  induction sample_data as [|data l IH]; intros a b c d e.
  - unfold matches. simpl. rewrite !Nat.add_0_r. reflexivity.
  - change (foldl ?f ?s (data :: l)) with (foldl f (f s data) l).
    rewrite count_value_dict, IH, !matches_cons, !Nat.add_assoc. reflexivity.
Qed.

Lemma success_rates_of_dict a b c d e len :
  len <> 0%nat ->
  success_rates_of (counters_dict a b c d e) len
  = Ok ((fun kv => (kv.1, Qred (Qof_nat kv.2 / Qof_nat len))) <$> counters_dict a b c d e).
Proof.
  intros Hlen. unfold success_rates_of, true_divide. simpl.
  apply Nat.eqb_neq in Hlen. rewrite Hlen. reflexivity.
Qed.

Lemma sample_nonempty cells :
  COUNT cells <> 0%nat -> select_distinct_not_null SAMPLE_SIZE cells <> [].
Proof.
  unfold COUNT, select_distinct_not_null.
  destruct (non_null cells) as [|v vs]; [done|]. intros _. simpl. done.
Qed.

Lemma sample_empty cells :
  COUNT cells = 0%nat -> select_distinct_not_null SAMPLE_SIZE cells = [].
Proof.
  unfold COUNT, select_distinct_not_null.
  destruct (non_null cells) as [|v vs]; [done|]. simpl. lia.
Qed.

(** The function once the sample has been drawn. *)
Lemma infer_column_type_sample conn col relation_name sample_data :
  fetch conn relation_name
    (fun r => select_distinct_not_null SAMPLE_SIZE <$> select_column col r) = Ok sample_data ->
  infer_column_type dateutil_parse str conn col relation_name
  = (success_rates ← success_rates_of
       (counters_dict (matches dateutil_parse str INTEGER sample_data)
          (matches dateutil_parse str FLOAT sample_data)
          (matches dateutil_parse str DATE sample_data)
          (matches dateutil_parse str BOOLEAN sample_data) 0) (length sample_data);
     max_rate ← max_number success_rates.*2;
     if Qlt_bool max_rate SUCCESS_THRESHOLD then Ok VARCHAR
     else max_key (List.filter (fun kv => Qeq_bool kv.2 max_rate) success_rates).*1).
Proof.
  intros Hfetch. unfold infer_column_type. rewrite Hfetch. simpl.
  change counters_init with (counters_dict 0 0 0 0 0).
  rewrite foldl_count_value. reflexivity.
Qed.

(** C8.  When the sample of a column is not empty and every type's success
    rate, hence the maximum over the five types, is below 0.5, the
    inferred type is VARCHAR. *)
Theorem infer_column_type_below_threshold conn col relation_name sample_data :
  fetch conn relation_name
    (fun r => select_distinct_not_null SAMPLE_SIZE <$> select_column col r) = Ok sample_data ->
  sample_data <> [] ->
  (forall t, (success_rate dateutil_parse str t sample_data < SUCCESS_THRESHOLD)%Q) ->
  infer_column_type dateutil_parse str conn col relation_name = Ok VARCHAR.
Proof.
  intros Hfetch Hne Hrates.
  rewrite (infer_column_type_sample _ _ _ _ Hfetch).
  rewrite success_rates_of_dict by (destruct sample_data; done).
  change (Ok ?x ≫= ?f) with (f x). cbv beta.
  destruct (max_number _) as [m|] eqn:Hmax; [|done].
  change (Ok ?x ≫= ?f) with (f x). cbv beta.
  apply max_number_In in Hmax.
  assert (m < SUCCESS_THRESHOLD)%Q as Hm.
  { simpl in Hmax.
    destruct Hmax as [<-|[<-|[<-|[<-|[<-|[]]]]]]; rewrite Qred_correct.
    - apply (Hrates INTEGER).
    - apply (Hrates FLOAT).
    - apply (Hrates DATE).
    - apply (Hrates BOOLEAN).
    - rewrite <- (matches_VARCHAR sample_data). apply (Hrates VARCHAR). }
  apply Qlt_bool_iff in Hm. rewrite Hm. reflexivity.
Qed.

(** C10.  The rates are computed by dividing by the sample length with no
    guard: a column with a non-null value gets a type, a column without
    one (in particular any column of a relation without rows) raises
    [ZeroDivisionError]. *)
Theorem infer_column_type_division conn col relation_name r cells :
  conn !! relation_name = Some r ->
  select_column col r = Ok cells ->
  (COUNT cells <> 0%nat ->
     exists ty, infer_column_type dateutil_parse str conn col relation_name = Ok ty)
  /\ (COUNT cells = 0%nat ->
     infer_column_type dateutil_parse str conn col relation_name = Raise ZeroDivisionError)
  /\ (row_count r = 0%nat ->
     infer_column_type dateutil_parse str conn col relation_name = Raise ZeroDivisionError).
Proof.
  intros Hrel Hcol.
  assert (fetch conn relation_name
    (fun r => select_distinct_not_null SAMPLE_SIZE <$> select_column col r)
    = Ok (select_distinct_not_null SAMPLE_SIZE cells)) as Hfetch.
  { unfold fetch. rewrite Hrel, Hcol. reflexivity. }
  rewrite (infer_column_type_sample _ _ _ _ Hfetch).
  assert (COUNT cells = 0%nat ->
    (success_rates ← success_rates_of
       (counters_dict
          (matches dateutil_parse str INTEGER (select_distinct_not_null SAMPLE_SIZE cells))
          (matches dateutil_parse str FLOAT (select_distinct_not_null SAMPLE_SIZE cells))
          (matches dateutil_parse str DATE (select_distinct_not_null SAMPLE_SIZE cells))
          (matches dateutil_parse str BOOLEAN (select_distinct_not_null SAMPLE_SIZE cells)) 0)
       (length (select_distinct_not_null SAMPLE_SIZE cells));
     max_rate ← max_number success_rates.*2;
     if Qlt_bool max_rate SUCCESS_THRESHOLD then Ok VARCHAR
     else max_key (List.filter (fun kv => Qeq_bool kv.2 max_rate) success_rates).*1)
    = Raise ZeroDivisionError) as Hzero.
  { intros Hcount. rewrite (sample_empty _ Hcount). reflexivity. }
  split; [|split; [exact Hzero|]].
  - intros Hcount. apply sample_nonempty in Hcount.
    rewrite success_rates_of_dict by (destruct (select_distinct_not_null _ _); done).
    change (Ok ?x ≫= ?f) with (f x). cbv beta.
    destruct (max_number _) as [m|] eqn:Hmax; [|done].
    change (Ok ?x ≫= ?f) with (f x). cbv beta.
    destruct (Qlt_bool m SUCCESS_THRESHOLD); [eauto|].
    eapply max_key_of_maximum, Hmax.
  - intros Hrows. apply Hzero.
    unfold select_column in Hcol. destruct (column_index r col); [|done].
    injection Hcol as <-. unfold column_cells, row_count in *.
    destruct (rel_rows r); [reflexivity|done].
Qed.
End InferenceFacts.

(** A text column whose sample is x, 1, z: every rate is at most 1/3. *)
Lemma infer_column_type_below_threshold_witness :
  let conn : catalog :=
    {[ "t" := Relation [("a", "VARCHAR")]
                [[Some (VStr "x")]; [Some (VStr "1")]; [None]; [Some (VStr "z")]; [Some (VStr "x")]] ]} in
  infer_column_type iso_date_parse str_of_value conn "a" "t" = Ok VARCHAR.
Proof.
  intros conn.
  apply (infer_column_type_below_threshold iso_date_parse str_of_value conn "a" "t"
           [VStr "x"; VStr "1"; VStr "z"]).
  - reflexivity.
  - discriminate.
  - intros []; vm_compute; reflexivity.
Defined.

(** A column with one value gets a type; an empty column raises. *)
Lemma infer_column_type_division_witness :
  let r := Relation [("a", "VARCHAR"); ("b", "VARCHAR")]
             [[Some (VStr "x"); None]; [None; None]] in
  let conn : catalog := {[ "t" := r ]} in
  (exists ty, infer_column_type iso_date_parse str_of_value conn "a" "t" = Ok ty)
  /\ infer_column_type iso_date_parse str_of_value conn "b" "t" = Raise ZeroDivisionError.
Proof.
  intros r conn. split.
  - apply (infer_column_type_division iso_date_parse str_of_value conn "a" "t" r
             [Some (VStr "x"); None]); [reflexivity|reflexivity|discriminate].
  - destruct (infer_column_type_division iso_date_parse str_of_value conn "b" "t" r
                [None; None] eq_refl eq_refl) as (_ & Hzero & _).
    apply Hzero. reflexivity.
Defined.

(** ** The engine: statements keep or shrink a relation *)

Lemma bind_Ok {A B} (m : result A) (f : A -> result B) (b : B) :
  m ≫= f = Ok b -> exists a, m = Ok a /\ f a = Ok b.
Proof. destruct m as [a|e]; simpl; [eauto|discriminate]. Qed.

Lemma fmap_Ok {A B} (f : A -> B) (m : result A) (b : B) :
  f <$> m = Ok b -> exists a, m = Ok a /\ b = f a.
Proof. destruct m as [a|e]; simpl; [|discriminate]. intros [= <-]. eauto. Qed.

Lemma for_each_invariant {A S} (P : S -> Prop) (body : S -> A -> result S) (l : list A) :
  forall s s',
    P s ->
    (forall s x s', In x l -> P s -> body s x = Ok s' -> P s') ->
    for_each body s l = Ok s' -> P s'.
Proof.
  induction l as [|x l IH]; simpl; intros s s' Hs Hstep Hrun.
  - injection Hrun as <-. exact Hs.
  - apply bind_Ok in Hrun as (s1 & H1 & H2).
    eapply IH; [| |exact H2]; eauto.
Qed.

Lemma execute_Ok conn relation_name statement conn' :
  execute conn relation_name statement = Ok conn' ->
  exists r r', conn !! relation_name = Some r /\ statement r = Ok r'
               /\ conn' = <[relation_name := r']> conn.
Proof.
  unfold execute. destruct (conn !! relation_name) as [r|]; [|discriminate].
  intros (r' & Hr' & [= <-])%bind_Ok. eauto.
Qed.

Lemma create_table_Ok conn name r conn' :
  create_table conn name r = Ok conn' -> conn !! name = None /\ conn' = <[name := r]> conn.
Proof.
  unfold create_table. destruct (conn !! name); [discriminate|]. intros [= <-]. done.
Qed.

Lemma list_remove_delete (col : string) (cols : list (string * string)) i c :
  list_find (fun c => c.1 = col) cols = Some (i, c) ->
  (delete i cols).*1 = list_remove col cols.*1.
Proof.
  revert i. induction cols as [|d cols IH]; intros i; csimpl; [done|].
  case_decide as Hd.
  - intros [= <- <-]. simpl. apply String.eqb_eq in Hd. rewrite Hd. done.
  - intros ([j c'] & Hfind & Heq)%fmap_Some. simpl in Heq.
    injection Heq as -> ->. simpl.
    apply String.eqb_neq in Hd. rewrite Hd. f_equal. eapply IH, Hfind.
Qed.

Lemma sql_drop_column_Ok col r r' :
  sql_drop_column col r = Ok r' ->
  S (column_count r') = column_count r
  /\ row_count r' = row_count r
  /\ (rel_columns r').*1 = list_remove col (rel_columns r).*1.
Proof.
  unfold sql_drop_column, column_index.
  destruct (list_find _ _) as [[i c]|] eqn:Hfind; simpl; [|discriminate].
  intros [= <-]. unfold column_count, row_count. simpl.
  pose proof Hfind as (Hc & _)%list_find_Some.
  rewrite length_delete, length_fmap by eauto.
  apply lookup_lt_Some in Hc.
  split; [lia|]. split; [done|]. eapply list_remove_delete, Hfind.
Qed.

Lemma sql_add_column_Ok col ty r r' :
  sql_add_column col ty r = Ok r' ->
  column_count r' = S (column_count r)
  /\ row_count r' = row_count r
  /\ rel_columns r' = (rel_columns r ++ [(col, ty)])%list.
Proof.
  unfold sql_add_column. destruct (column_index r col); [discriminate|].
  intros [= <-]. unfold column_count, row_count. simpl.
  rewrite length_app, length_fmap. simpl. split; [lia|done].
Qed.

Lemma sql_rename_column_Ok old new r r' :
  sql_rename_column old new r = Ok r' ->
  column_count r' = column_count r /\ row_count r' = row_count r.
Proof.
  unfold sql_rename_column.
  destruct (column_index r old) as [i|]; [|discriminate].
  destruct (column_index r new) as [j|].
  - case_bool_decide; [|discriminate]. intros [= <-]. done.
  - intros [= <-]. unfold column_count, row_count. simpl.
    rewrite length_alter. done.
Qed.

Lemma sql_delete_where_Ok condition r r' :
  sql_delete_where condition r = Ok r' ->
  rel_columns r' = rel_columns r /\ row_count r' <= row_count r.
Proof.
  unfold sql_delete_where. intros [= <-]. unfold row_count. simpl.
  split; [done|]. apply filter_length_le.
Qed.

Lemma sql_update_Ok target source expression r r' :
  sql_update target source expression r = Ok r' ->
  rel_columns r' = rel_columns r /\ row_count r' = row_count r.
Proof.
  unfold sql_update.
  destruct (column_index r target) as [t|]; [|discriminate].
  destruct (column_index r source) as [s|]; [|discriminate].
  destruct (mapM _ _) as [rows|] eqn:Hrows; [|discriminate].
  intros [= <-]. unfold row_count. simpl. split; [done|].
  symmetry. eapply length_mapM, Hrows.
Qed.

Lemma fillna_shape column v df :
  rel_columns (fillna column v df) = rel_columns df
  /\ row_count (fillna column v df) = row_count df.
Proof.
  unfold fillna. destruct (column_index df column); [|done].
  unfold row_count. simpl. rewrite length_fmap. done.
Qed.

Lemma string_length_app (s t : string) :
  String.length (s +:+ t) = (String.length s + String.length t)%nat.
Proof. induction s as [|c s IH]; simpl; [done|]. by rewrite IH. Qed.

Lemma cleaned_name_fresh (relation_name : string) :
  relation_name +:+ "_cleaned" <> relation_name.
Proof.
  intros H. apply (f_equal String.length) in H.
  rewrite string_length_app in H. simpl in H. lia.
Qed.

(** ** The missing-data handler *)

(** The state of the loop that drops the all-null columns: the relation only
    loses columns, and the Python list of names follows it. *)
Lemma drop_missing_column_Ok relation_name conn columns column conn' columns' r :
  conn !! relation_name = Some r ->
  columns = (rel_columns r).*1 ->
  drop_missing_column relation_name (conn, columns) column = Ok (conn', columns') ->
  exists r', conn' = <[relation_name := r']> conn
    /\ columns' = (rel_columns r').*1
    /\ column_count r' <= column_count r
    /\ row_count r' = row_count r.
Proof.
  intros Hr -> Hstep. unfold drop_missing_column in Hstep.
  apply bind_Ok in Hstep as (count & _ & Hstep).
  destruct (count =? 0)%nat.
  - apply bind_Ok in Hstep as (conn1 & Hexec & [= <- <-]).
    apply execute_Ok in Hexec as (r0 & r' & Hr0 & Hdrop & ->).
    rewrite Hr in Hr0. injection Hr0 as <-.
    apply sql_drop_column_Ok in Hdrop as (Hc & Hrows & Hnames).
    exists r'. repeat split; [by rewrite Hnames | lia | done].
  - injection Hstep as <- <-. exists r.
    rewrite insert_id by done. done.
Qed.

Lemma impute_column_Ok conn relation_name df entry df' :
  impute_column conn relation_name df entry = Ok df' ->
  rel_columns df' = rel_columns df /\ row_count df' = row_count df.
Proof.
  unfold impute_column. destruct entry as [column type].
  destruct (bool_decide _).
  - intros (median & _ & H)%bind_Ok.
    destruct median as [v|]; [|discriminate].
    injection H as <-. apply fillna_shape.
  - intros (modes & _ & H)%bind_Ok.
    destruct (match modes with [] => None | g :: _ => g.1 end) as [v|].
    + destruct (truthy _); injection H as <-; apply fillna_shape.
    + injection H as <-. apply fillna_shape.
Qed.

(** What a run of the handler that returns leaves in the catalog. *)
Lemma handle_missing_data_Ok conn relation_name conn' out r :
  conn !! relation_name = Some r ->
  handle_missing_data conn relation_name = Ok (conn', out) ->
  exists r',
    conn' !! relation_name = Some r'
    /\ column_count r' <= column_count r
    /\ row_count r' <= row_count r
    /\ (forall k, k <> relation_name -> k <> out -> conn' !! k = conn !! k)
    /\ ((out = relation_name /\ (rel_columns r' = [] \/ rel_rows r' = []))
        \/ (out = relation_name +:+ "_cleaned"
            /\ conn !! out = None
            /\ rel_columns r' <> [] /\ rel_rows r' <> []
            /\ exists df, conn' !! out = Some df
                 /\ rel_columns df = rel_columns r'
                 /\ row_count df = row_count r')).
Proof.
  intros Hr Hrun. unfold handle_missing_data in Hrun.
  apply bind_Ok in Hrun as (described & Hdesc & Hrun).
  unfold fetch in Hdesc. rewrite Hr in Hdesc. injection Hdesc as <-.
  apply bind_Ok in Hrun as ([conn1 columns1] & Hloop & Hrun).
  assert (exists r1, conn1 = <[relation_name := r1]> conn
            /\ columns1 = (rel_columns r1).*1
            /\ column_count r1 <= column_count r
            /\ row_count r1 = row_count r) as (r1 & -> & -> & Hc1 & Hrows1).
  { refine (for_each_invariant
      (fun s => exists r1, s.1 = <[relation_name := r1]> conn
                  /\ s.2 = (rel_columns r1).*1
                  /\ column_count r1 <= column_count r
                  /\ row_count r1 = row_count r)
      _ _ _ _ _ _ Hloop).
    - exists r. simpl. rewrite insert_id by done. done.
    - intros [c cols] x [c' cols'] _ (r0 & Hc & Hcols & Hle & Heq) Hstep.
      simpl in Hc, Hcols. subst c.
      eapply drop_missing_column_Ok in Hstep as (r' & -> & -> & Hle' & Heq');
        [|apply lookup_insert_eq|done].
      exists r'. simpl. rewrite insert_insert_eq.
      repeat split; [lia|congruence]. }
  destruct (is_nil (rel_columns r1).*1) eqn:Hnil.
  { injection Hrun as <- <-. exists r1.
    split; [apply lookup_insert_eq|]. split; [done|]. split; [lia|]. split.
    - intros k Hk _. by rewrite lookup_insert_ne.
    - left. split; [done|]. left. by destruct (rel_columns r1). }
  apply bind_Ok in Hrun as (conn2 & Hdel & Hrun).
  apply execute_Ok in Hdel as (r1' & r2 & Hr1 & Hdel & ->).
  rewrite lookup_insert_eq in Hr1. injection Hr1 as <-.
  apply sql_delete_where_Ok in Hdel as (Hcols2 & Hrows2).
  rewrite insert_insert_eq in Hrun.
  apply bind_Ok in Hrun as (count_rows & Hcount & Hrun).
  unfold fetch in Hcount. rewrite lookup_insert_eq in Hcount. injection Hcount as <-.
  assert (column_count r2 <= column_count r) as Hc2
    by (unfold column_count in *; rewrite Hcols2; done).
  destruct (row_count r2 =? 0)%nat eqn:Hzero.
  { injection Hrun as <- <-. exists r2.
    split; [apply lookup_insert_eq|]. split; [done|]. split; [lia|]. split.
    - intros k Hk _. by rewrite lookup_insert_ne.
    - left. split; [done|]. right. apply Nat.eqb_eq in Hzero.
      unfold row_count in Hzero. by destruct (rel_rows r2). }
  apply bind_Ok in Hrun as (df0 & Hdf0 & Hrun).
  unfold fetch in Hdf0. rewrite lookup_insert_eq in Hdf0. injection Hdf0 as <-.
  apply bind_Ok in Hrun as (df & Himpute & Hrun).
  apply bind_Ok in Hrun as (conn3 & Hcreate & [= <- <-]).
  apply create_table_Ok in Hcreate as (Hfresh & ->).
  pose proof (cleaned_name_fresh relation_name) as Hne.
  rewrite lookup_insert_ne in Hfresh by done.
  assert (rel_columns df = rel_columns r2 /\ row_count df = row_count r2) as (Hdfc & Hdfr).
  { refine (for_each_invariant
      (fun d => rel_columns d = rel_columns r2 /\ row_count d = row_count r2)
      _ _ _ _ _ _ Himpute); [done|].
    intros d x d' _ (Hdc & Hdr) Hstep.
    apply impute_column_Ok in Hstep as (-> & ->). done. }
  exists r2.
  split; [by rewrite lookup_insert_ne, lookup_insert_eq|].
  split; [done|]. split; [lia|]. split.
  - intros k Hk Hk'. by rewrite !lookup_insert_ne.
  - right. split; [done|]. split; [done|]. split; [|split].
    + rewrite Hcols2. intros Hempty. rewrite Hempty in Hnil. discriminate.
    + intros Hempty. unfold row_count in Hzero. rewrite Hempty in Hzero. discriminate.
    + exists df. rewrite lookup_insert_eq. done.
Qed.


Lemma filter_all {A} (f : A -> bool) (l : list A) :
  (forall x, In x l -> f x = true) -> List.filter f l = l.
Proof.
  induction l as [|x l IH]; simpl; intros H; [done|].
  rewrite H by auto. f_equal. apply IH. auto.
Qed.




(** C3, evaluated where the code departs from it.  After the empty column
    [a] is dropped, the loop pairs the remaining columns with the storage
    types of the columns that were first in the list: the numeric column [b],
    whose median is 3, is paired with the type of [a] and its gap is filled
    with its most frequent value 1.  In [mostly_missing_text] the NULL group
    is the largest one of the text column, and its gaps are filled with the
    empty string although the value [x] occurs. *)
Theorem handle_missing_data_imputes_by_position :
  (fetch {[ "t" := gap_after_empty_column ]} "t" (fun r => MEDIAN <$> select_column "b" r)
     = Ok (num 3)
   /\ exists conn',
        handle_missing_data {[ "t" := gap_after_empty_column ]} "t" = Ok (conn', "t_cleaned")
        /\ conn' !! "t_cleaned"
           = Some (Relation [("b", "BIGINT"); ("c", "BIGINT")]
                     [[num 1; num 7]; [num 1; num 7]; [num 5; num 7]; [num 9; num 7];
                      [num 1; num 7]]))
  /\ (exists conn',
        handle_missing_data {[ "t" := mostly_missing_text ]} "t" = Ok (conn', "t_cleaned")
        /\ conn' !! "t_cleaned"
           = Some (Relation [("city", "VARCHAR"); ("id", "BIGINT")]
                     [[text "x"; num 1]; [text ""; num 2]; [text ""; num 3]])).
Proof.
  split; [split|].
  - vm_compute. reflexivity.
  - eexists. split; [vm_compute; reflexivity|]. vm_compute. reflexivity.
  - eexists. split; [vm_compute; reflexivity|]. vm_compute. reflexivity.
Qed.

(** ** The outlier filter *)

(** *** No outlier among ten values *)

Local Open Scope Q_scope.

Lemma Qof_nat_S n : Qof_nat (S n) == Qof_nat n + 1.
Proof. unfold Qof_nat. rewrite Nat2Z.inj_succ, <- Z.add_1_r, inject_Z_plus. reflexivity. Qed.

Lemma Qof_nat_nonneg n : 0 <= Qof_nat n.
Proof. unfold Qof_nat. change 0 with (inject_Z 0). rewrite <- Zle_Qle. lia. Qed.

Lemma sq_nonneg (x : Q) : 0 <= x * x.
Proof. nra. Qed.

Lemma Qsum_sq_nonneg l : 0 <= Qsum (sq <$> l).
Proof.
  induction l as [|a l IH]; csimpl; [lra|].
  pose proof (sq_nonneg a). unfold sq at 1. lra.
Qed.

Lemma cauchy_schwarz_step (m a s q : Q) :
  0 <= m -> 0 <= q -> s * s <= m * q ->
  (a + s) * (a + s) <= (m + 1) * (a * a + q).
Proof.
  intros Hm Hq Hs.
  destruct (Qlt_le_dec 0 m) as [Hpos|Hzero].
  - pose proof (sq_nonneg (m * a - s)) as Hsq.
    assert (m * ((a + s) * (a + s)) <= m * ((m + 1) * (a * a + q))) as H by nra.
    apply Qmult_lt_0_le_reg_r with (z := m); [done|].
    rewrite (Qmult_comm _ m), (Qmult_comm _ m). exact H.
  - assert (m == 0) as Hm0 by lra.
    assert (s * s <= 0) as Hs0 by (rewrite Hm0 in Hs; lra).
    pose proof (sq_nonneg s) as Hs1. pose proof (sq_nonneg a) as Ha.
    assert (s * s == 0) as Hss by lra.
    assert (s == 0) as Hsz.
    { destruct (Qmult_integral _ _ Hss); done. }
    rewrite Hsz, Hm0. nra.
Qed.

Lemma cauchy_schwarz l : sq (Qsum l) <= Qof_nat (length l) * Qsum (sq <$> l).
Proof.
  induction l as [|a l IH]; simpl length; simpl Qsum; csimpl.
  - unfold sq, Qof_nat. simpl. change (inject_Z 0) with 0. apply Qle_lteq. right. ring.
  - rewrite Qof_nat_S. simpl Qsum. unfold sq at 1 2.
    apply cauchy_schwarz_step; [apply Qof_nat_nonneg|apply Qsum_sq_nonneg|exact IH].
Qed.

Lemma Qsum_app l1 l2 : Qsum (l1 ++ l2) == Qsum l1 + Qsum l2.
Proof. induction l1 as [|a l1 IH]; simpl; [lra|]. rewrite IH. lra. Qed.

(** Samuelson's inequality: in a list of deviations that sum to zero, no
    square exceeds [(n - 1) / n] times the sum of the squares. *)
Lemma deviation_bound (ds : list Q) (d : Q) :
  In d ds -> Qsum ds == 0 ->
  Qof_nat (length ds) * (d * d) <= (Qof_nat (length ds) - 1) * Qsum (sq <$> ds).
Proof.
  intros (l1 & l2 & ->)%in_split Hsum.
  rewrite Qsum_app in Hsum. simpl in Hsum.
  rewrite fmap_app, Qsum_app, length_app. csimpl.
  rewrite Nat.add_succ_r, Qof_nat_S.
  pose proof (cauchy_schwarz (l1 ++ l2)) as Hcs.
  unfold sq in *.
  rewrite fmap_app, !Qsum_app, length_app in Hcs.
  set (m := Qof_nat (length l1 + length l2)) in *.
  set (q1 := Qsum ((fun x => x * x) <$> l1)) in *.
  set (q2 := Qsum ((fun x => x * x) <$> l2)) in *.
  assert (Qsum l1 + Qsum l2 == - d) as Hrest by lra.
  rewrite Hrest in Hcs. clearbody m q1 q2. nra.
Qed.

Lemma Qsum_shift (xs : list Q) (a : Q) :
  Qsum ((fun x => x - a) <$> xs) == Qsum xs - Qof_nat (length xs) * a.
Proof.
  induction xs as [|x xs IH]; simpl length; [unfold Qof_nat; simpl; ring|].
  rewrite Qof_nat_S. simpl. rewrite IH. ring.
Qed.

Lemma Qof_nat_pred n : (1 <= n)%nat -> Qof_nat (n - 1) == Qof_nat n - 1.
Proof.
  intros Hn. destruct n as [|n]; [lia|]. rewrite Qof_nat_S.
  replace (S n - 1)%nat with n by lia. ring.
Qed.

Lemma Qof_nat_le n m : (n <= m)%nat -> Qof_nat n <= Qof_nat m.
Proof. intros H. unfold Qof_nat. rewrite <- Zle_Qle. lia. Qed.

Lemma below_nine_times (N d v : Q) :
  2 <= N -> N <= 10 -> 0 < v ->
  N * (d * d) <= (N - 1) * ((N - 1) * v) ->
  d * d < 3 * 3 * v.
Proof.
  intros H2 H10 Hv Hd.
  assert ((N - 1) * (N - 1) < 9 * N) as Hn by nra.
  assert (N * (d * d) < N * (9 * v)) as H by nra.
  apply Qmult_lt_l in H; lra.
Qed.

(** With at most ten values in a column, no value has a z-score of 3. *)
Lemma small_sample_has_no_outlier cells avg variance x :
  AVG cells = Some avg ->
  VAR_SAMP cells = Some variance ->
  Qeq_bool variance 0 = false ->
  (length (numeric_values cells) <= 10)%nat ->
  In x (numeric_values cells) ->
  z_score_below avg variance default_z_score_threshold x = true.
Proof.
  unfold VAR_SAMP. intros Havg Hvar Hnz Hlen Hin. rewrite Havg in Hvar.
  unfold AVG in Havg. set (xs := numeric_values cells) in *.
  destruct (is_nil xs); [discriminate|]. injection Havg as Havg.
  destruct (length xs <? 2)%nat eqn:Hn; [discriminate|]. injection Hvar as Hvar.
  apply Nat.ltb_ge in Hn.
  assert (avg == Qsum xs / Qof_nat (length xs)) as Havg'
    by (rewrite <- Havg; apply Qred_correct).
  set (S := Qsum ((fun x => (x - avg) * (x - avg)) <$> xs)) in *.
  assert (variance == S / Qof_nat (length xs - 1)) as Hvar'
    by (rewrite <- Hvar; apply Qred_correct).
  clear Havg Hvar.
  pose proof (Qof_nat_le 2 (length xs) Hn) as HN2.
  pose proof (Qof_nat_le (length xs) 10 Hlen) as HN10.
  change (Qof_nat 2) with 2 in HN2. change (Qof_nat 10) with 10 in HN10.
  rewrite Qof_nat_pred in Hvar' by lia.
  set (N := Qof_nat (length xs)) in *.
  set (ds := (fun x => x - avg) <$> xs).
  assert (Qsum ds == 0) as Hzero.
  { unfold ds. rewrite Qsum_shift. fold N. rewrite Havg'. field. lra. }
  assert (S = Qsum (sq <$> ds)) as HS.
  { unfold S, ds. rewrite <- list_fmap_compose. reflexivity. }
  pose proof (deviation_bound ds (x - avg)) as Hbound.
  assert (length ds = length xs) as Hlen_ds by apply length_fmap.
  rewrite Hlen_ds in Hbound. fold N in Hbound.
  rewrite <- HS in Hbound.
  assert (In (x - avg) ds) as Hd.
  { apply list_elem_of_In, list_elem_of_fmap. exists x. split; [done|]. by apply list_elem_of_In. }
  specialize (Hbound Hd Hzero).
  assert (0 <= S) as HSpos by (rewrite HS; apply Qsum_sq_nonneg).
  assert (S == (N - 1) * variance) as HSv by (rewrite Hvar'; field; lra).
  assert (0 < variance) as Hpos.
  { assert (~ variance == 0) as Hne.
    { intros H0. apply Qeq_bool_iff in H0. congruence. }
    assert (0 <= variance) by (rewrite Hvar'; apply Qle_shift_div_l; lra).
    lra. }
  unfold z_score_below, default_z_score_threshold.
  apply andb_true_iff. split; [reflexivity|].
  apply Qlt_bool_iff. rewrite HSv in Hbound.
  eapply below_nine_times; eauto.
Qed.

Local Close Scope Q_scope.

Lemma length_omap_le {A B} (f : A -> option B) (l : list A) :
  length (omap f l) <= length l.
Proof.
  induction l as [|x l IH]; csimpl; [done|].
  destruct (f x); simpl; lia.
Qed.

Lemma column_index_of_column r col ty :
  In (col, ty) (rel_columns r) -> is_Some (column_index r col).
Proof.
  intros Hin. unfold column_index. apply fmap_is_Some.
  eapply list_find_elem_of; [apply list_elem_of_In; exact Hin|done].
Qed.

Lemma z_score_loop conn relation_name r infos : forall clauses,
  conn !! relation_name = Some r ->
  (forall info, In info infos -> In info (rel_columns r)) ->
  Forall (clause_of r) clauses ->
  exists clauses',
    for_each (z_score_step conn relation_name default_z_score_threshold) clauses infos
      = Ok clauses'
    /\ Forall (clause_of r) clauses'.
Proof.
  induction infos as [|[column data_type] infos IH]; intros clauses Hr Hsub Hgood.
  - simpl. eauto.
  - destruct (column_index_of_column r column data_type) as [i Hi]; [apply Hsub; by left|].
    assert (exists clauses1,
      z_score_step conn relation_name default_z_score_threshold clauses (column, data_type)
        = Ok clauses1 /\ Forall (clause_of r) clauses1) as (clauses1 & Hstep & Hgood1).
    { unfold z_score_step. destruct (bool_decide _); [|eauto].
      unfold fetch, select_column. rewrite Hr, Hi. simpl.
      destruct (AVG (column_cells r i)) as [avg|] eqn:Havg; [|eauto].
      destruct (VAR_SAMP (column_cells r i)) as [variance|] eqn:Hvar; [|eauto].
      destruct (Qeq_bool variance 0) eqn:Hnz; [eauto|].
      eexists. split; [reflexivity|].
      apply Forall_app. split; [done|]. apply Forall_singleton.
      exists i. simpl. done. }
    change (for_each ?f ?s (?x :: ?l)) with (f s x ≫= fun s' => for_each f s' l).
    rewrite Hstep. change (Ok ?x ≫= ?f) with (f x). cbv beta.
    apply IH; [done| |done]. intros info Hin. apply Hsub. by right.
Qed.

Lemma clause_not_false r row c :
  clause_of r c -> In row (rel_rows r) -> row_count r <= 10 ->
  eval_clause r row c <> Some false.
Proof.
  intros (i & Hi & Havg & Hvar & Hnz & Ht) Hrow Hrows.
  unfold eval_clause, cell_of. rewrite Hi.
  destruct (cell_at i row) as [[x| |]|] eqn:Hcell; try discriminate.
  rewrite Ht.
  rewrite (small_sample_has_no_outlier (column_cells r i) _ _ x Havg Hvar Hnz); [discriminate| |].
  - unfold numeric_values, column_cells. etransitivity; [apply length_omap_le|].
    rewrite length_fmap. exact Hrows.
  - apply list_elem_of_In, list_elem_of_omap. exists (Some (VNum x)). split; [|done].
    unfold column_cells. apply list_elem_of_fmap. exists row. split; [done|].
    by apply list_elem_of_In.
Qed.

(** A relation of at most ten rows passes the outlier filter unchanged,
    whatever its columns hold. *)
Lemma handle_outliers_small_relation conn relation_name r :
  conn !! relation_name = Some r ->
  row_count r <= 10 ->
  handle_outliers conn relation_name default_z_score_threshold = Ok (conn, relation_name).
Proof.
  intros Hr Hrows. unfold handle_outliers. rewrite Hr. simpl.
  destruct (z_score_loop conn relation_name r (rel_columns r) [] Hr) as (clauses & -> & Hgood);
    [done|constructor|].
  simpl. destruct (is_nil clauses); [done|].
  unfold execute, sql_delete_where. rewrite Hr. simpl.
  rewrite filter_all.
  - assert (Relation (rel_columns r) (rel_rows r) = r) as -> by (by destruct r).
    rewrite insert_id by done. done.
  - intros row Hrow. apply negb_true_iff. unfold outlier_condition.
    assert (foldr (fun c acc => sql_and (eval_clause r row c) acc) (Some true) clauses
            <> Some false) as Hand.
    { induction Hgood as [|c clauses' Hc Hgood IH]; simpl; [discriminate|].
      pose proof (clause_not_false r row c Hc Hrow Hrows) as Hne.
      destruct (eval_clause r row c) as [[]|], (foldr _ _ clauses') as [[]|]; simpl; congruence. }
    destruct (foldr _ _ clauses) as [[]|]; simpl; congruence.
Qed.

(** The z-score test of the model is the one of the code: for a positive
    variance, comparing squares is comparing [ABS(x - avg) / stddev] with the
    threshold over the reals, [stddev] being the square root of the variance. *)
Lemma z_score_squared (d v t : R) :
  (0 < v)%R -> (0 < t)%R ->
  (Rabs d / sqrt v < t)%R <-> (d * d < t * t * v)%R.
Proof.
  intros Hv Ht.
  pose proof (sqrt_lt_R0 v Hv) as Hs.
  pose proof (sqrt_sqrt v (Rlt_le _ _ Hv)) as Hss.
  assert (Rabs d / sqrt v < t <-> Rabs d < t * sqrt v)%R as ->.
  { split; intros H.
    - apply (Rmult_lt_compat_r (sqrt v)) in H; [|done].
      unfold Rdiv in H. rewrite Rmult_assoc, Rinv_l, Rmult_1_r in H by lra. done.
    - apply (Rmult_lt_reg_r (sqrt v)); [done|].
      unfold Rdiv. rewrite Rmult_assoc, Rinv_l, Rmult_1_r by lra. done. }
  assert (0 < t * sqrt v)%R as Hpos by (apply Rmult_lt_0_compat; done).
  replace (t * t * v)%R with (Rsqr (t * sqrt v)) by (unfold Rsqr; rewrite <- Hss at 3; ring).
  change (d * d)%R with (Rsqr d).
  split; intros H.
  - apply Rsqr_lt_abs_1. rewrite (Rabs_pos_eq (t * sqrt v)) by lra. done.
  - apply Rsqr_lt_abs_0 in H. rewrite (Rabs_pos_eq (t * sqrt v)) in H by lra. done.
Qed.

Lemma z_score_below_sqrt (avg variance threshold x : Q) :
  (0 < variance)%Q ->
  z_score_below avg variance threshold x = true
  <-> (Rabs (Q2R x - Q2R avg) / sqrt (Q2R variance) < Q2R threshold)%R.
Proof.
  intros Hv. apply Qlt_Rlt in Hv. rewrite RMicromega.Q2R_0 in Hv.
  unfold z_score_below. rewrite andb_true_iff, !Qlt_bool_iff.
  split.
  - intros [Ht H]. apply Qlt_Rlt in Ht, H. rewrite RMicromega.Q2R_0 in Ht.
    rewrite !Q2R_mult, !Q2R_minus in H.
    apply z_score_squared; done.
  - intros H.
    assert (0 < Q2R threshold)%R as Ht.
    { eapply Rle_lt_trans; [|exact H].
      apply Rmult_le_pos; [apply Rabs_pos|].
      left. apply Rinv_0_lt_compat, sqrt_lt_R0, Hv. }
    split.
    + apply Rlt_Qlt. rewrite RMicromega.Q2R_0. done.
    + apply Rlt_Qlt. rewrite !Q2R_mult, !Q2R_minus.
      apply z_score_squared; done.
Qed.

(** C1, as the code has it.  On the column 9, 10, 11, 10, 100000 the mean is
    20008 and the sample variance 1999600020.5, so the z-score of 100000 is
    about 1.79 and below the threshold 3: the filter keeps all five rows. *)
Theorem scenario3_keeps_every_row :
  fetch {[ "t" := scenario3 ]} "t" (fun r => AVG <$> select_column "amount" r) = Ok (Some 20008%Q)
  /\ fetch {[ "t" := scenario3 ]} "t" (fun r => VAR_SAMP <$> select_column "amount" r)
     = Ok (Some (3999200041 # 2)%Q)
  /\ z_score_below 20008 (3999200041 # 2) default_z_score_threshold 100000 = true
  /\ handle_outliers {[ "t" := scenario3 ]} "t" default_z_score_threshold
     = Ok ({[ "t" := scenario3 ]}, "t").
Proof. repeat split; vm_compute; reflexivity. Qed.

(** C1 as stated fails: the run does not leave the four rows 9, 10, 11, 10;
    the row holding 100000 is still there. *)
Lemma scenario3_outlier_not_deleted :
  ~ (exists conn',
       handle_outliers {[ "t" := scenario3 ]} "t" default_z_score_threshold = Ok (conn', "t")
       /\ (rel_rows <$> conn' !! "t") = Some [[num 9]; [num 10]; [num 11]; [num 10]]).
Proof.
  intros (conn' & Hrun & Hrows).
  vm_compute in Hrun. injection Hrun as <-.
  vm_compute in Hrows. discriminate.
Qed.

(** ** The pipeline *)

Lemma handle_outliers_Ok conn relation_name threshold conn' out r :
  conn !! relation_name = Some r ->
  handle_outliers conn relation_name threshold = Ok (conn', out) ->
  out = relation_name
  /\ exists r', conn' !! relation_name = Some r'
       /\ rel_columns r' = rel_columns r
       /\ row_count r' <= row_count r.
Proof.
  intros Hr Hrun. unfold handle_outliers in Hrun.
  apply bind_Ok in Hrun as (clauses & _ & Hrun).
  destruct (is_nil clauses).
  - injection Hrun as <- <-. eauto.
  - apply bind_Ok in Hrun as (conn1 & Hexec & [= <- <-]).
    apply execute_Ok in Hexec as (r0 & r' & Hr0 & Hdel & ->).
    rewrite Hr in Hr0. injection Hr0 as <-.
    apply sql_delete_where_Ok in Hdel as (Hcols & Hrows).
    split; [done|]. exists r'. rewrite lookup_insert_eq. done.
Qed.

Lemma try_execute_invariant (P : relation -> Prop) conn relation_name statement r :
  conn !! relation_name = Some r ->
  P r ->
  (forall r', statement r = Ok r' -> P r') ->
  exists r', try_execute conn relation_name statement !! relation_name = Some r' /\ P r'.
Proof.
  intros Hr HP Hstep. unfold try_execute.
  destruct (execute conn relation_name statement) as [conn'|e] eqn:Hexec; [|eauto].
  apply execute_Ok in Hexec as (r0 & r' & Hr0 & Hstmt & ->).
  rewrite Hr in Hr0. injection Hr0 as <-.
  exists r'. rewrite lookup_insert_eq. auto.
Qed.

Lemma column_index_app r r' col extra i :
  rel_columns r' = (rel_columns r ++ extra)%list ->
  column_index r col = Some i -> column_index r' col = Some i.
Proof.
  unfold column_index. intros -> ([j c] & Hfind & ->)%fmap_Some.
  erewrite list_find_app_l by exact Hfind. done.
Qed.

Lemma column_index_same r r' col :
  rel_columns r' = rel_columns r -> column_index r' col = column_index r col.
Proof. unfold column_index. by intros ->. Qed.

Section PipelineFacts.
Variable dateutil_parse : string -> option string.
Variable str : value -> string.
Variable sql_cast : string -> value -> option value.

Lemma infer_column_type_column conn col relation_name r ty :
  conn !! relation_name = Some r ->
  infer_column_type dateutil_parse str conn col relation_name = Ok ty ->
  is_Some (column_index r col).
Proof.
  intros Hr Hrun. unfold infer_column_type in Hrun.
  apply bind_Ok in Hrun as (sample & Hfetch & _).
  unfold fetch in Hfetch. rewrite Hr in Hfetch.
  apply fmap_Ok in Hfetch as (cells & Hsel & _).
  unfold select_column in Hsel. destruct (column_index r col); [eauto|discriminate].
Qed.

(** One column migrated: the relation keeps its rows and does not gain a
    column. *)
Lemma set_datatype_Ok relation_name conn inferred col conn' inferred' r :
  conn !! relation_name = Some r ->
  set_datatype dateutil_parse str sql_cast relation_name (conn, inferred) col
    = Ok (conn', inferred') ->
  exists r', conn' !! relation_name = Some r'
    /\ column_count r' <= column_count r
    /\ row_count r' = row_count r.
Proof.
  intros Hr Hrun. unfold set_datatype in Hrun.
  apply bind_Ok in Hrun as (ty & Hty & Hrun).
  apply bind_Ok in Hrun as (repl & _ & Hrun).
  injection Hrun as <- _.
  destruct (infer_column_type_column _ _ _ _ _ Hr Hty) as [i Hi].
  set (shape := fun r' : relation =>
    column_count r' <= S (column_count r)
    /\ row_count r' = row_count r
    /\ column_index r' col = Some i).
  destruct (try_execute_invariant shape conn relation_name
              (sql_add_column (col +:+ "_new") (type_name ty)) r Hr)
    as (ra & Hra & Hsa).
  { unfold shape. split; [lia|]. done. }
  { intros r' Hadd. pose proof Hadd as (Hc & Hrows & Hcols)%sql_add_column_Ok.
    unfold shape. split; [lia|]. split; [done|].
    eapply column_index_app; [exact Hcols|exact Hi]. }
  destruct (try_execute_invariant
              (fun r' => rel_columns r' = rel_columns ra /\ row_count r' = row_count ra)
              _ relation_name (update_statement dateutil_parse str sql_cast col ty repl) ra Hra)
    as (ru & Hru & Hcu & Hrowu); [done| |].
  { intros r' Hupd. unfold update_statement in Hupd.
    destruct ty, repl; try discriminate; by apply sql_update_Ok in Hupd. }
  destruct Hsa as (Hle & Hrowa & Hia).
  assert (column_index ru col = Some i) as Hiu
    by (rewrite (column_index_same ra ru) by done; done).
  unfold execute at 1. rewrite Hru. unfold sql_drop_column at 1. rewrite Hiu.
  simpl.
  match goal with |- context [<[relation_name := ?x]> _] => set (rd := x) end.
  assert (S (column_count rd) = column_count ru /\ row_count rd = row_count ru)
    as (Hcd & Hrowd).
  { assert (sql_drop_column col ru = Ok rd) as Hdrop
      by (unfold sql_drop_column; rewrite Hiu; done).
    apply sql_drop_column_Ok in Hdrop as (? & ? & _). done. }
  match goal with |- context [<[relation_name := rd]> ?c] => set (cu := c) in * end.
  destruct (try_execute_invariant
              (fun r' => column_count r' = column_count rd /\ row_count r' = row_count rd)
              (<[relation_name := rd]> cu) relation_name
              (sql_rename_column (col +:+ "_new") col) rd)
    as (rn & Hrn & Hcn & Hrown); [apply lookup_insert_eq|done| |].
  { intros r' Hren. by apply sql_rename_column_Ok in Hren. }
  exists rn. split; [exact Hrn|].
  unfold column_count in *. rewrite Hcu in Hcd. split; [lia|congruence].
Qed.

Lemma infer_and_set_datatypes_Ok conn relation_name conn' answer r :
  conn !! relation_name = Some r ->
  infer_and_set_datatypes dateutil_parse str sql_cast conn relation_name
    = Ok (conn', answer) ->
  exists r', conn' !! relation_name = Some r'
    /\ column_count r' <= column_count r
    /\ row_count r' = row_count r.
Proof.
  intros Hr Hrun. unfold infer_and_set_datatypes in Hrun.
  destruct (negb _); [discriminate|].
  apply bind_Ok in Hrun as (columns & _ & Hrun).
  apply bind_Ok in Hrun as ([conn1 inferred] & Hloop & [= <- _]).
  refine (for_each_invariant
    (fun s => exists r', s.1 !! relation_name = Some r'
                /\ column_count r' <= column_count r
                /\ row_count r' = row_count r)
    _ _ _ _ _ _ Hloop).
  - exists r. done.
  - intros [c inf] col [c' inf'] _ (r0 & Hr0 & Hc0 & Hrow0) Hstep. simpl in Hr0.
    eapply set_datatype_Ok in Hstep as (r' & Hr' & Hc' & Hrow'); [|exact Hr0].
    exists r'. simpl. split; [done|]. split; [lia|congruence].
Qed.

(** The defect behind C2 and C10 in general: a relation that has a column
    and no row cannot pass the type inference. *)
Lemma infer_and_set_datatypes_no_rows conn relation_name r :
  conn !! relation_name = Some r ->
  rel_columns r <> [] ->
  rel_rows r = [] ->
  infer_and_set_datatypes dateutil_parse str sql_cast conn relation_name
  = Raise ZeroDivisionError.
Proof.
  intros Hr Hcols Hrows. unfold infer_and_set_datatypes, table_exists, get_columns, fetch.
  rewrite Hr. rewrite bool_decide_eq_true_2 by eauto. simpl.
  destruct (rel_columns r) as [|[col ty] cols] eqn:Hc; [done|]. simpl.
  assert (infer_column_type dateutil_parse str conn col relation_name
          = Raise ZeroDivisionError) as Hinfer.
  { rewrite (infer_column_type_sample _ _ _ _ _ []); [reflexivity|].
    unfold fetch, select_column, column_index, column_cells.
    rewrite Hr, Hc, Hrows. simpl. rewrite decide_True by done. reflexivity. }
  rewrite Hinfer. reflexivity.
Qed.

Lemma rename_sanitized_Ok relation_name conn old conn' r :
  conn !! relation_name = Some r ->
  rename_sanitized relation_name conn old = Ok conn' ->
  exists r', conn' !! relation_name = Some r'
    /\ column_count r' = column_count r
    /\ row_count r' = row_count r.
Proof.
  intros Hr Hrun. unfold rename_sanitized in Hrun.
  apply execute_Ok in Hrun as (r0 & r' & Hr0 & Hren & ->).
  rewrite Hr in Hr0. injection Hr0 as <-.
  apply sql_rename_column_Ok in Hren.
  exists r'. rewrite lookup_insert_eq. done.
Qed.

Lemma upload_id_not_temporary (upload_id : string) : upload_id <> "tmp_" +:+ upload_id.
Proof.
  intros H. apply (f_equal String.length) in H.
  rewrite string_length_app in H. simpl in H. lia.
Qed.

(** C9.  When an upload completes the pipeline, the final relation stored
    under the upload identifier has no more rows and no more columns than
    the relation parsed from the file. *)
Theorem clean_and_store_data_monotone raw filename timestamp temp_suffix conn
    conn' upload_id sample_data :
  clean_and_store_data dateutil_parse str sql_cast (Some raw) filename timestamp
    temp_suffix conn = Ok (conn', Some (upload_id, sample_data)) ->
  exists final,
    conn' !! upload_id = Some final
    /\ row_count final <= row_count raw
    /\ column_count final <= column_count raw.
Proof.
  intros Hrun. unfold clean_and_store_data in Hrun.
  set (id := make_upload_id filename timestamp temp_suffix) in *.
  apply bind_Ok in Hrun as (conn1 & Hcreate & Hrun).
  apply create_table_Ok in Hcreate as (_ & ->).
  apply bind_Ok in Hrun as (columns_info & _ & Hrun).
  apply bind_Ok in Hrun as (conn2 & Hrename & Hrun).
  assert (exists r2, conn2 !! ("tmp_" +:+ id) = Some r2
            /\ column_count r2 = column_count raw
            /\ row_count r2 = row_count raw) as (r2 & Hr2 & Hc2 & Hrow2).
  { refine (for_each_invariant
      (fun c => exists r2, c !! ("tmp_" +:+ id) = Some r2
                  /\ column_count r2 = column_count raw
                  /\ row_count r2 = row_count raw)
      _ _ _ _ _ _ Hrename).
    - exists raw. rewrite lookup_insert_eq. done.
    - intros c old c' _ (r0 & Hr0 & Hc0 & Hrow0) Hstep.
      eapply rename_sanitized_Ok in Hstep as (r' & Hr' & Hc' & Hrow'); [|exact Hr0].
      exists r'. split; [done|]. split; congruence. }
  apply bind_Ok in Hrun as ([conn3 after_missing] & Hmissing & Hrun).
  assert (exists r3, conn3 !! after_missing = Some r3
            /\ column_count r3 <= column_count raw
            /\ row_count r3 <= row_count raw) as (r3 & Hr3 & Hc3 & Hrow3).
  { destruct (handle_missing_data_Ok _ _ _ _ _ Hr2 Hmissing)
      as (r' & Hr' & Hc' & Hrow' & _ & Hout).
    destruct Hout as [(-> & _)|(-> & _ & _ & _ & df & Hdf & Hdfc & Hdfr)].
    - exists r'. split; [done|]. lia.
    - exists df. split; [done|]. unfold column_count in *. rewrite Hdfc. lia. }
  apply bind_Ok in Hrun as ([conn4 after_outliers] & Houtliers & Hrun).
  apply (handle_outliers_Ok _ _ _ _ _ _ Hr3) in Houtliers
    as (-> & r4 & Hr4 & Hc4 & Hrow4).
  apply bind_Ok in Hrun as ([conn5 answer] & Hinfer & Hrun).
  apply (infer_and_set_datatypes_Ok _ _ _ _ _ Hr4) in Hinfer
    as (r5 & Hr5 & Hc5 & Hrow5).
  apply bind_Ok in Hrun as (final & Hfinal & Hrun).
  unfold fetch in Hfinal. rewrite Hr5 in Hfinal. injection Hfinal as <-.
  apply bind_Ok in Hrun as (conn6 & Hstore & Hrun).
  apply create_table_Ok in Hstore as (_ & ->).
  apply bind_Ok in Hrun as (sample & _ & Hrun).
  apply bind_Ok in Hrun as (conn7 & Hdrop & Hrun).
  injection Hrun as <- <- _.
  unfold drop_table in Hdrop.
  destruct (<[id:=r5]> conn5 !! ("tmp_" +:+ id)); [|discriminate].
  injection Hdrop as <-.
  exists r5. split.
  - rewrite lookup_delete_ne by (intros H; symmetry in H; by apply upload_id_not_temporary in H).
    apply lookup_insert_eq.
  - unfold column_count in *. rewrite Hc4 in Hc5. lia.
Qed.
End PipelineFacts.

(** The upload [people.csv] completes: its final relation has at most the 4
    rows and 3 columns of the file. *)
Lemma clean_and_store_data_monotone_witness :
  match clean_and_store_data iso_date_parse str_of_value simple_cast (Some people_csv)
          "people.csv" "1700000000" "k3x9q2ab" ∅ with
  | Ok (conn', Some (upload_id, _)) =>
      upload_id = "people_1700000000_k3x9q2ab"
      /\ exists final, conn' !! upload_id = Some final
           /\ row_count final <= 4 /\ column_count final <= 3
  | _ => False
  end.
Proof.
  destruct (clean_and_store_data iso_date_parse str_of_value simple_cast (Some people_csv)
              "people.csv" "1700000000" "k3x9q2ab" ∅)
    as [[conn' [[upload_id sample_data]|]]|e] eqn:Hrun.
  - split; [vm_compute in Hrun; congruence|].
    exact (clean_and_store_data_monotone iso_date_parse str_of_value simple_cast
             people_csv "people.csv" "1700000000" "k3x9q2ab" ∅ conn' upload_id
             sample_data Hrun).
  - vm_compute in Hrun. discriminate.
  - vm_compute in Hrun. discriminate.
Defined.

(** C2, evaluated where the code departs from it.  Every row of the 11 by 11
    identity table is an outlier in one column (z-score 10 / sqrt 11, about
    3.02), so the outlier filter leaves a relation without rows; the type
    inference then divides by the length of an empty sample and the pipeline
    raises [ZeroDivisionError] instead of returning an upload identifier. *)
Theorem clean_and_store_data_raises_on_empty_relation :
  (exists conn',
     handle_outliers {[ "t" := identity_table 11 ]} "t" default_z_score_threshold
       = Ok (conn', "t")
     /\ (row_count <$> conn' !! "t") = Some 0%nat)
  /\ forall dateutil_parse str sql_cast,
       clean_and_store_data dateutil_parse str sql_cast (Some (identity_table 11))
         "data.csv" "1700000000" "abcd1234" ∅ = Raise ZeroDivisionError.
Proof.
  split.
  - eexists. split; [vm_compute; reflexivity|]. vm_compute. reflexivity.
  - intros dateutil_parse str sql_cast. vm_compute. reflexivity.
Qed.

(** The other half of C2 holds: when every column is empty the handler
    returns early, no column is left to infer, and the pipeline returns an
    upload identifier for a relation without columns. *)
Lemma clean_and_store_data_all_columns_missing dateutil_parse str sql_cast :
  exists conn' sample_data,
    clean_and_store_data dateutil_parse str sql_cast (Some all_missing)
      "data.csv" "1700000000" "abcd1234" ∅
    = Ok (conn', Some ("data_1700000000_abcd1234", sample_data))
    /\ conn' !! "data_1700000000_abcd1234" = Some (Relation [] [[]; []]).
Proof.
  eexists _, _. split; [vm_compute; reflexivity|]. vm_compute. reflexivity.
Qed.

(** * More of the code *)

(** ** Text helpers *)

Lemma string_app_cons x (a b : string) : String x a +:+ b = String x (a +:+ b).
Proof. reflexivity. Qed.

Lemma string_app_nil (b : string) : EmptyString +:+ b = b.
Proof. reflexivity. Qed.

Lemma string_app_assoc (a b c : string) : (a +:+ b) +:+ c = a +:+ (b +:+ c).
Proof.
  induction a as [|x a IH]; [done|].
  rewrite !string_app_cons. f_equal. exact IH.
Qed.

Lemma all_chars_app p (a b : string) :
  PyStr.all_chars p (a +:+ b) = PyStr.all_chars p a && PyStr.all_chars p b.
Proof.
  induction a as [|x a IH]; [done|].
  rewrite string_app_cons. simpl. by rewrite IH, andb_assoc.
Qed.

Lemma count_char_app c (a b : string) :
  count_char c (a +:+ b) = (count_char c a + count_char c b)%Z.
Proof.
  induction a as [|x a IH]; [done|].
  rewrite string_app_cons. simpl. rewrite IH. lia.
Qed.

(** *** [escape_string] *)

Lemma escape_string_quotes value :
  count_char "'" (escape_string value) = (2 * count_char "'" value)%Z.
Proof.
  induction value as [|c s IH]; simpl; [done|].
  destruct (Ascii.eqb c "'") eqn:Hc; simpl; rewrite ?Hc, IH; lia.
Qed.

(** X1.  Escaping loses nothing: two texts with the same escaped form are the
    same text, and the escaped form holds twice the quotes of the text. *)
Theorem escape_string_injective (s t : string) :
  escape_string s = escape_string t ->
  s = t /\ count_char "'" (escape_string s) = (2 * count_char "'" s)%Z.
Proof.
  intros H. split; [|apply escape_string_quotes].
  revert t H. induction s as [|c s IH]; intros [|d t]; simpl.
  - done.
  - destruct (Ascii.eqb d "'"); discriminate.
  - destruct (Ascii.eqb c "'"); discriminate.
  - destruct (Ascii.eqb c "'") eqn:Hc, (Ascii.eqb d "'") eqn:Hd.
    + apply Ascii.eqb_eq in Hc, Hd. subst. intros [= H]. f_equal. by apply IH.
    + intros [= <- _]. discriminate.
    + intros [= -> _]. discriminate.
    + intros [= <- H]. f_equal. by apply IH.
Qed.

Lemma escape_string_injective_witness :
  "O'Neil" = "O'Neil" /\ count_char "'" (escape_string "O'Neil") = 2%Z.
Proof. apply (escape_string_injective "O'Neil" "O'Neil"). reflexivity. Defined.

(** *** [allowed_file] *)

Lemma after_last_None c s : after_last c s = None <-> count_char c s = 0%Z.
Proof.
  induction s as [|d s IH]; simpl; [done|].
  pose proof (count_char_nonneg c s) as Hpos.
  destruct (after_last c s) as [t|].
  - split; [done|]. intros H.
    assert (count_char c s = 0%Z) as H0 by (destruct (Ascii.eqb d c); lia).
    apply IH in H0. done.
  - assert (count_char c s = 0%Z) as -> by (by apply IH).
    destruct (Ascii.eqb d c); split; (done || lia).
Qed.

Lemma after_last_Some c s t :
  after_last c s = Some t <->
  exists b, s = b +:+ String c t /\ count_char c t = 0%Z.
Proof.
  split.
  - revert t. induction s as [|d s IH]; intros t; simpl; [done|].
    destruct (after_last c s) as [t'|] eqn:Hlast.
    + intros [= <-]. destruct (IH t' eq_refl) as (b & -> & Hc).
      exists (String d b). done.
    + destruct (Ascii.eqb d c) eqn:Hd; [|done]. intros [= <-].
      apply Ascii.eqb_eq in Hd. subst d.
      exists EmptyString. split; [done|]. by apply after_last_None.
  - intros (b & -> & Hc). induction b as [|d b IH]; simpl.
    + apply after_last_None in Hc. rewrite Hc, Ascii.eqb_refl. done.
    + rewrite IH. done.
Qed.

(** X2.  A file name is allowed exactly when the text after its last dot reads
    [csv] in any letter case; a name without a dot is not. *)
Theorem allowed_file_iff (file : string) :
  allowed_file file = true <->
  exists base extension,
    file = base +:+ "." +:+ extension
    /\ count_char "." extension = 0%Z
    /\ PyStr.lower extension = "csv".
Proof.
  unfold allowed_file. split.
  - destruct (after_last "." file) as [extension|] eqn:Hlast; [|done].
    intros Hin%bool_decide_eq_true. apply list_elem_of_singleton in Hin.
    apply after_last_Some in Hlast as (base & -> & Hc). eauto.
  - intros (base & extension & -> & Hc & Hlower).
    assert (after_last "." (base +:+ "." +:+ extension) = Some extension) as ->
      by (apply after_last_Some; eauto).
    apply bool_decide_eq_true. rewrite Hlower. by apply list_elem_of_singleton.
Qed.

(** *** The search text *)

Lemma first_char_app (a b : string) :
  a <> EmptyString -> PyStr.first_char (a +:+ b) = PyStr.first_char a.
Proof. by destruct a. Qed.

Lemma last_char_app (a b : string) :
  b <> EmptyString -> PyStr.last_char (a +:+ b) = PyStr.last_char b.
Proof.
  intros Hb. induction a as [|x a IH]; simpl; [done|].
  rewrite IH. destruct (a +:+ b) eqn:Hab; [|done].
  destruct a; simpl in Hab; [done|discriminate].
Qed.

Lemma sub_non_alnum_runs_chars in_run s :
  PyStr.all_chars (fun c => is_alnum c || PyStr.is_blank c) (sub_non_alnum_runs in_run s) = true.
Proof.
  revert in_run. induction s as [|c s IH]; intros in_run; simpl; [done|].
  destruct (is_alnum c) eqn:Hc; simpl; [by rewrite Hc, IH|].
  destruct in_run; simpl; by rewrite ?IH.
Qed.

Lemma alnum_of_non_space c :
  (is_alnum c || PyStr.is_blank c) && negb (PyStr.is_space c) = true -> is_alnum c = true.
Proof. by_cases_on_char c. Qed.

Lemma split_go_words s :
  PyStr.all_chars (fun c => is_alnum c || PyStr.is_blank c) s = true ->
  PyStr.all_chars is_alnum (split_go s).1 = true
  /\ Forall search_word (split_go s).2.
Proof.
  induction s as [|c s IH]; simpl; [done|].
  intros [Hc Hs]%andb_true_iff. destruct (IH Hs) as [Hw Hws].
  destruct (split_go s) as [w ws]. simpl in *.
  destruct (PyStr.is_space c) eqn:Hsp; simpl.
  - split; [done|]. unfold cons_word. destruct w; simpl; [done|].
    constructor; [|done]. split; done.
  - split; [|done]. rewrite Hw, andb_true_r. apply alnum_of_non_space.
    by rewrite Hc, Hsp.
Qed.

Lemma py_split_words s :
  PyStr.all_chars (fun c => is_alnum c || PyStr.is_blank c) s = true ->
  Forall search_word (py_split s).
Proof.
  intros H. destruct (split_go_words s H) as [Hw Hws].
  unfold py_split. destruct (split_go s) as [w ws]. simpl in *.
  unfold cons_word. destruct w; simpl; [done|]. constructor; [|done]. split; done.
Qed.

Lemma alnum_not_plus c : is_alnum c = true -> Ascii.eqb c "+" = false.
Proof. by_cases_on_char c. Qed.

Lemma has_double_word_plus (w r : string) :
  search_word w ->
  has_double "+" r = false ->
  PyStr.first_char r <> Some "+"%char ->
  has_double "+" (w +:+ String "+" r) = false.
Proof.
  intros [Hne Hw] Hr Hfirst. induction w as [|a w IH]; [done|].
  simpl in Hw. apply andb_true_iff in Hw as [Ha Hw].
  destruct w as [|b w].
  - simpl. rewrite (alnum_not_plus a Ha). simpl.
    destruct r as [|x r]; [done|]. rewrite Hr, orb_false_r.
    destruct (Ascii.eqb x "+") eqn:Hx; [|done].
    apply Ascii.eqb_eq in Hx. subst x. done.
  - change (has_double "+" (String a (String b (w +:+ String "+" r))) = false).
    simpl has_double. rewrite (alnum_not_plus a Ha). simpl.
    apply IH; done.
Qed.

Lemma join_words ws :
  Forall search_word ws -> ws <> [] ->
  PyStr.all_chars (fun c => is_alnum c || Ascii.eqb c "+") (join "+" ws) = true
  /\ (exists c, PyStr.first_char (join "+" ws) = Some c /\ is_alnum c = true)
  /\ (exists c, PyStr.last_char (join "+" ws) = Some c /\ is_alnum c = true)
  /\ has_double "+" (join "+" ws) = false.
Proof.
  induction 1 as [|w ws Hw Hws IH]; [done|]. intros _.
  assert (PyStr.all_chars (fun c => is_alnum c || Ascii.eqb c "+") w = true) as Hw_chars.
  { eapply all_chars_weaken; [|apply Hw]. intros c ->. done. }
  assert (exists c, PyStr.first_char w = Some c /\ is_alnum c = true) as Hw_first.
  { destruct Hw as [Hne Hall]. destruct w as [|c w]; [done|].
    simpl in Hall. apply andb_true_iff in Hall as [Hc _]. eauto. }
  assert (has_double "+" w = false /\ exists c, PyStr.last_char w = Some c /\ is_alnum c = true)
    as [Hw_double Hw_last].
  { destruct Hw as [Hne Hall]. clear -Hne Hall.
    induction w as [|a w IHw]; [done|]. simpl in Hall.
    apply andb_true_iff in Hall as [Ha Hall]. destruct w as [|b w].
    - split; [done|]. eauto.
    - destruct IHw as [Hd Hl]; [done|done|]. split; [|exact Hl].
      simpl has_double. rewrite (alnum_not_plus a Ha). simpl. exact Hd. }
  destruct ws as [|w' ws].
  - simpl. done.
  - destruct IH as (Hchars & (cf & Hfirst & Hcf) & Hlast & Hdouble); [done|].
    change (join "+" (w :: w' :: ws)) with (w +:+ String "+" (join "+" (w' :: ws))).
    assert (join "+" (w' :: ws) <> EmptyString) as Hne.
    { intros H0. rewrite H0 in Hfirst. done. }
    split; [|split; [|split]].
    + rewrite all_chars_app, Hw_chars.
      change (PyStr.all_chars ?p (String ?c ?r)) with (p c && PyStr.all_chars p r).
      cbv beta. rewrite Hchars. done.
    + rewrite first_char_app by apply Hw. exact Hw_first.
    + rewrite last_char_app by done.
      change (String "+" (join "+" (w' :: ws)))
        with (String "+" EmptyString +:+ join "+" (w' :: ws)).
      rewrite last_char_app by done. exact Hlast.
    + apply has_double_word_plus; [done|done|].
      rewrite Hfirst. intros [= ->]. discriminate.
Qed.

Lemma py_split_sub_empty in_run s :
  py_split (sub_non_alnum_runs in_run s) = [] <-> PyStr.any_char is_alnum s = false.
Proof.
  unfold py_split. revert in_run.
  induction s as [|c s IH]; intros in_run; simpl; [done|].
  destruct (is_alnum c) eqn:Hc; simpl.
  - assert (PyStr.is_space c = false) as Hsp by (revert Hc; clear; by_cases_on_char c).
    destruct (split_go (sub_non_alnum_runs false s)) as [w ws].
    rewrite Hsp. simpl. split; discriminate.
  - destruct in_run; [apply IH|]. simpl.
    specialize (IH true). destruct (split_go (sub_non_alnum_runs true s)) as [w ws].
    simpl. change (PyStr.is_space " ") with true. cbv iota.
    unfold cons_word at 1. simpl. exact IH.
Qed.

(** X3.  The search text is made of letters, digits and [+] only; it neither
    starts nor ends with [+] and never holds two [+] in a row.  It is empty
    exactly when the keywords hold no letter and no digit. *)
Theorem search_query_shape (keywords : string) :
  PyStr.all_chars (fun c => is_alnum c || Ascii.eqb c "+") (search_query keywords) = true
  /\ PyStr.first_char (search_query keywords) <> Some "+"%char
  /\ PyStr.last_char (search_query keywords) <> Some "+"%char
  /\ has_double "+" (search_query keywords) = false
  /\ (search_query keywords = EmptyString <-> PyStr.any_char is_alnum keywords = false).
Proof.
  unfold search_query.
  pose proof (py_split_words _ (sub_non_alnum_runs_chars false keywords)) as Hwords.
  pose proof (py_split_sub_empty false keywords) as Hempty.
  destruct (py_split (sub_non_alnum_runs false keywords)) as [|w ws] eqn:Hsplit.
  - simpl. do 4 (split; [done|]). split; [intros _; by apply Hempty|done].
  - destruct (join_words (w :: ws) Hwords) as (Hchars & (cf & Hf & Hcf) & (cl & Hl & Hcl) & Hd);
      [done|].
    split; [done|]. split; [|split; [|split; [done|]]].
    + rewrite Hf. intros [= ->]. discriminate.
    + rewrite Hl. intros [= ->]. discriminate.
    + split.
      * intros H0. rewrite H0 in Hf. done.
      * intros H0. apply Hempty in H0. done.
Qed.

(** *** [search_hdx_database] *)

Lemma endswith_app suffix s :
  endswith suffix s = true -> exists p, s = p +:+ suffix.
Proof.
  induction s as [|c s IH].
  - unfold endswith. rewrite orb_false_r. intros H%String.eqb_eq.
    exists EmptyString. by subst.
  - change (endswith suffix (String c s))
      with (String.eqb (String c s) suffix || endswith suffix s).
    intros [H|H]%orb_true_iff.
    + apply String.eqb_eq in H. exists EmptyString. by subst.
    + destruct (IH H) as [p ->]. exists (String c p). done.
Qed.

Lemma smap_app_inv f (s a b : string) :
  PyStr.smap f s = a +:+ b ->
  exists s1 s2, s = s1 +:+ s2 /\ PyStr.smap f s1 = a /\ PyStr.smap f s2 = b.
Proof.
  revert s. induction a as [|x a IH]; intros s H.
  - exists EmptyString, s. done.
  - destruct s as [|c s]; [done|]. rewrite string_app_cons in H. simpl in H.
    injection H as Hc H. destruct (IH s H) as (s1 & s2 & -> & H1 & H2).
    exists (String c s1), s2. simpl. rewrite Hc, H1. done.
Qed.

Lemma after_last_app_clean c (p e : string) :
  count_char c e = 0%Z ->
  after_last c (p +:+ e) = (fun t => t +:+ e) <$> after_last c p.
Proof.
  intros He. induction p as [|d p IH].
  - simpl. by apply after_last_None.
  - rewrite string_app_cons. simpl. rewrite IH.
    destruct (after_last c p); simpl; [done|]. destruct (Ascii.eqb d c); done.
Qed.

Lemma lower_char_dot c : PyStr.lower_char c = "."%char -> c = "."%char.
Proof. by_cases_on_char c. Qed.

Lemma lower_char_letter c (l : ascii) :
  PyStr.lower_char c = l -> PyStr.is_lower l = true ->
  Ascii.eqb c "." = false /\ Ascii.eqb c "/" = false.
Proof. intros <-. by_cases_on_char c; done. Qed.

(** A download address that ends with [.csv], in any letter case, has a file
    name that [allowed_file] accepts. *)
Lemma csv_url_allowed (download_url : string) :
  endswith ".csv" (PyStr.lower download_url) = true ->
  allowed_file (url_filename download_url) = true.
Proof.
  intros (p' & Hlower)%endswith_app.
  apply smap_app_inv in Hlower as (p & e & -> & _ & He).
  destruct e as [|c0 [|c1 [|c2 [|c3 [|c4 e]]]]]; try discriminate.
  injection He as H0 H1 H2 H3.
  apply lower_char_dot in H0. subst c0.
  destruct (lower_char_letter c1 _ H1 eq_refl) as [Hd1 Hs1].
  destruct (lower_char_letter c2 _ H2 eq_refl) as [Hd2 Hs2].
  destruct (lower_char_letter c3 _ H3 eq_refl) as [Hd3 Hs3].
  set (x := String c1 (String c2 (String c3 EmptyString))).
  assert (count_char "/" (String "." x) = 0%Z) as Hslash
    by (unfold x; simpl; rewrite Hs1, Hs2, Hs3; done).
  assert (count_char "." x = 0%Z) as Hdot
    by (unfold x; simpl; rewrite Hd1, Hd2, Hd3; done).
  assert (exists q, url_filename (p +:+ String "." x) = q +:+ String "." x) as [q ->].
  { unfold url_filename. rewrite after_last_app_clean by done.
    destruct (after_last "/" p) as [t|]; simpl; eauto. }
  unfold allowed_file.
  assert (after_last "." (q +:+ String "." x) = Some x) as ->
    by (apply after_last_Some; eauto).
  assert (PyStr.lower x = "csv") as ->
    by (unfold x, PyStr.lower; cbn [PyStr.smap]; congruence).
  apply bool_decide_eq_true. by apply list_elem_of_singleton.
Qed.

(** X4.  Every data set that the search offers has a download address ending in
    [.csv] and a file name that [allowed_file] accepts; the offers keep the
    order of the packages of the answer. *)
Theorem search_results_offers (data : list package) (results : list dataset) :
  search_results data = Some results ->
  Forall (fun d => endswith ".csv" (PyStr.lower (ds_download_url d)) = true
                   /\ allowed_file (url_filename (ds_download_url d)) = true) results
  /\ ds_id <$> results `sublist_of` pkg_id <$> data.
Proof.
  revert results. induction data as [|result data IH]; intros results; simpl.
  - intros [= <-]. split; [constructor|done].
  - destruct (pkg_resources result) as [|first rest]; [done|].
    destruct (search_results data) as [results'|]; [|done]. simpl.
    destruct (IH results' eq_refl) as [Hall Hsub].
    destruct (endswith ".csv" (PyStr.lower (res_download_url first))) eqn:Hcsv.
    + intros [= <-]. split.
      * constructor; [|done]. simpl. split; [done|]. by apply csv_url_allowed.
      * simpl. by apply sublist_skip.
    + intros [= <-]. split; [done|]. by apply sublist_cons.
Qed.

Lemma search_results_offers_witness :
  Forall (fun d => endswith ".csv" (PyStr.lower (ds_download_url d)) = true
                   /\ allowed_file (url_filename (ds_download_url d)) = true)
    [Dataset "p1" "Prices" "monthly" "https://host/files/Food_Prices.CSV"]
  /\ ["p1"] `sublist_of` ["p1"; "p2"].
Proof.
  apply (search_results_offers
    [Package "p1" "Prices" [Resource "monthly" "https://host/files/Food_Prices.CSV"];
     Package "p2" "Maps" [Resource "shapes" "https://host/files/admin.zip"]]).
  reflexivity.
Defined.

(** X5.  The search raises exactly when some package of the answer has no
    resource, whatever the other packages hold. *)
Theorem search_results_raises (data : list package) :
  search_results data = None <-> Exists (fun p => pkg_resources p = []) data.
Proof.
  induction data as [|result data IH]; simpl.
  - split; [done|]. intros H. inversion H.
  - destruct (pkg_resources result) as [|first rest] eqn:Hres.
    + split; [|done]. intros _. by constructor.
    + destruct (search_results data) as [results|]; simpl.
      * split.
        -- destruct (endswith _ _); done.
        -- intros H. inversion H as [? ? H1|? ? H1]; subst; [congruence|].
           apply IH in H1. done.
      * split; [|done]. intros _. apply Exists_cons_tl. by apply IH.
Qed.

(** *** [get_sql_query] *)

Lemma lstrip_app_stop p (a b : string) c :
  p c = false ->
  PyStr.lstrip p (a +:+ String c b) = PyStr.lstrip p a +:+ String c b.
Proof.
  intros Hc. induction a as [|d a IH].
  - simpl. by rewrite Hc.
  - rewrite string_app_cons. simpl. destruct (p d); [exact IH|done].
Qed.

Lemma rstrip_app_stop p (a b : string) c :
  p c = false ->
  PyStr.rstrip p (a +:+ String c b) = a +:+ String c (PyStr.rstrip p b).
Proof.
  intros Hc. induction a as [|d a IH].
  - simpl. by rewrite Hc, andb_false_r.
  - rewrite !string_app_cons. simpl. rewrite IH.
    destruct a; done.
Qed.

Lemma split_first_skip c s :
  Ascii.eqb c "#" = false ->
  split_first "###" (String c s)
  = prod_map (String c) (fun r => r) <$> split_first "###" s.
Proof.
  intros Hc.
  change (split_first "###" (String c s))
    with (match (if Ascii.eqb "#" c then strip_prefix "##" s else None) with
          | Some rest => Some (EmptyString, rest)
          | None => prod_map (String c) (fun r => r) <$> split_first "###" s
          end).
  rewrite Ascii.eqb_sym, Hc. reflexivity.
Qed.

Lemma split_first_marker (a b : string) :
  no_hash a = true -> split_first "###" (a +:+ "###" +:+ b) = Some (a, b).
Proof.
  intros Ha. induction a as [|c a IH].
  - reflexivity.
  - unfold no_hash in Ha.
    change (PyStr.all_chars ?p (String c a)) with (p c && PyStr.all_chars p a) in Ha.
    cbv beta in Ha. apply andb_true_iff in Ha as [Hc Ha]. apply negb_true_iff in Hc.
    rewrite string_app_cons, split_first_skip, (IH Ha) by done. reflexivity.
Qed.

Lemma split_first_no_marker (s : string) :
  no_hash s = true -> split_first "###" s = None.
Proof.
  induction s as [|c s IH]; [done|]. unfold no_hash.
  change (PyStr.all_chars ?p (String c s)) with (p c && PyStr.all_chars p s).
  cbv beta. intros [Hc Hs]%andb_true_iff. apply negb_true_iff in Hc.
  rewrite split_first_skip, (IH Hs) by done. reflexivity.
Qed.

(** X6.  An answer that marks its query, [... ### query ### ...], gives the
    query without the surrounding whitespace, provided no [#] comes before
    the first marker or inside the query; an answer without any [#] gives
    nothing. *)
Theorem get_sql_query_marked (before query after : string) :
  no_hash before = true ->
  no_hash query = true ->
  get_sql_query (before +:+ "###" +:+ query +:+ "###" +:+ after)
  = Some (PyStr.strip PyStr.is_space query)
  /\ get_sql_query before = None.
Proof.
  intros Hbefore Hquery. split.
  - unfold get_sql_query, PyStr.strip at 2.
    change (before +:+ "###" +:+ query +:+ "###" +:+ after)
      with (before +:+ String "#" ("##" +:+ query +:+ "###" +:+ after)).
    rewrite lstrip_app_stop by reflexivity.
    rewrite rstrip_app_stop by reflexivity.
    assert (forall x y : string,
      "##" +:+ x +:+ "###" +:+ y = ("##" +:+ x +:+ "##") +:+ String "#" y) as Hshape.
    { intros x y. rewrite !string_app_assoc. reflexivity. }
    rewrite Hshape, rstrip_app_stop by reflexivity.
    rewrite <- Hshape.
    change (PyStr.lstrip PyStr.is_space before
            +:+ String "#" ("##" +:+ query +:+ "###" +:+ PyStr.rstrip PyStr.is_space after))
      with (PyStr.lstrip PyStr.is_space before
            +:+ "###" +:+ (query +:+ "###" +:+ PyStr.rstrip PyStr.is_space after)).
    unfold search_marked.
    rewrite split_first_marker by (apply all_chars_lstrip; exact Hbefore).
    simpl. rewrite split_first_marker by exact Hquery. reflexivity.
  - unfold get_sql_query, search_marked.
    rewrite split_first_no_marker; [reflexivity|].
    apply all_chars_strip. exact Hbefore.
Qed.

Lemma get_sql_query_marked_witness :
  get_sql_query ("Here it is: " +:+ "###" +:+ " SELECT name FROM t " +:+ "###" +:+ " Done.")
  = Some "SELECT name FROM t"
  /\ get_sql_query "Here it is: " = None.
Proof.
  apply (get_sql_query_marked "Here it is: " " SELECT name FROM t " " Done."); reflexivity.
Defined.

(** ** The classification predicates, continued *)

Lemma is_integer_normalized val : is_integer (normalize_number val) = is_integer val.
Proof. unfold is_integer. rewrite normalize_number_idempotent. reflexivity. Qed.

(** X7.  No text is counted both as an integer and as a float. *)
Theorem is_integer_is_float_exclusive (val : string) :
  is_integer val && is_float val = false.
Proof.
  unfold is_float. rewrite is_integer_normalized.
  destruct (is_integer val); [|done]. simpl. by rewrite andb_false_r.
Qed.

Lemma int_digits_chars after_digit acc s z :
  PyNum.int_digits after_digit acc s = Some z -> count_char "." s = 0%Z.
Proof.
  revert after_digit acc. induction s as [|c s IH]; intros after_digit acc; simpl; [done|].
  destruct (PyStr.is_digit c) eqn:Hd.
  - intros H%IH. assert (Ascii.eqb c "." = false) as -> by (revert Hd; clear; by_cases_on_char c).
    lia.
  - destruct (PyStr.is_underscore c && after_digit) eqn:Hu; [|done].
    intros H%IH. apply andb_true_iff in Hu as [Hu _].
    assert (Ascii.eqb c "." = false) as -> by (revert Hu; clear; by_cases_on_char c).
    lia.
Qed.

Lemma int_no_dot s z : PyNum.int s = Some z -> count_char "." s = 0%Z.
Proof.
  unfold PyNum.int. intros H.
  rewrite <- (count_char_strip "." PyStr.is_space s) by reflexivity.
  destruct (PyStr.strip PyStr.is_space s) as [|c r]; [done|].
  assert (forall t, (Z.opp <$> PyNum.int_digits false 0 t) = Some z -> count_char "." t = 0%Z)
    as Hneg.
  { intros t Ht. destruct (PyNum.int_digits false 0 t) as [y|] eqn:Hy; [|done].
    eapply int_digits_chars, Hy. }
  destruct (Ascii.eqb c "+") eqn:Hplus.
  { apply Ascii.eqb_eq in Hplus. subst c. simpl in *.
    apply int_digits_chars in H. lia. }
  destruct (Ascii.eqb c "-") eqn:Hminus.
  { apply Ascii.eqb_eq in Hminus. subst c. simpl in *.
    apply Hneg in H. lia. }
  assert (PyNum.int_digits false 0 (String c r) = Some z) as Hd.
  { revert H Hplus Hminus. clear.
    destruct c as [[] [] [] [] [] [] [] []];
      first [intros H _ _; exact H | intros _ Hp Hm; discriminate]. }
  eapply int_digits_chars, Hd.
Qed.

Lemma count_dot_normalized val :
  count_char "." (normalize_number val) = 0%Z -> count_char "." val = 0%Z.
Proof.
  unfold normalize_number. rewrite count_char_strip by reflexivity.
  rewrite count_char_remove_other by discriminate.
  pose proof (count_char_nonneg "." val) as Hpos.
  destruct (Z.eq_dec (count_char "." val) 0%Z) as [H0|H0]; [done|].
  rewrite count_char_remove_first by lia. lia.
Qed.

(** X8.  [is_integer] accepts exactly the texts whose normalized form Python's
    [int] reads as a number of the signed 32-bit range; such a text holds no
    decimal point. *)
Theorem is_integer_iff (val : string) :
  (is_integer val = true <->
   exists z, PyNum.int (normalize_number val) = Some z
             /\ (-2147483648 <= z <= 2147483647)%Z)
  /\ (is_integer val = true -> count_char "." val = 0%Z).
Proof.
  assert (is_integer val = true ->
          exists z, PyNum.int (normalize_number val) = Some z
                    /\ (-2147483648 <= z <= 2147483647)%Z) as Hforward.
  { unfold is_integer.
    destruct (negb (PyStr.is_empty (normalize_number val))
              && is_type (normalize_number val) py_int); [|done].
    destruct (PyNum.int (normalize_number val)) as [z|]; [|done].
    intros H. exists z. split; [done|]. lia. }
  split; [split; [exact Hforward|]|].
  - intros (z & Hint & Hrange). unfold is_integer, is_type.
    rewrite normalize_number_idempotent, Hint.
    assert (PyStr.is_empty (PyStr.strip PyStr.is_space (normalize_number val)) = false) as Hne.
    { unfold PyNum.int in Hint.
      destruct (PyStr.strip PyStr.is_space (normalize_number val)); [done|done]. }
    assert (PyStr.is_empty (normalize_number val) = false) as Hne'.
    { destruct (normalize_number val); [done|done]. }
    rewrite Hne, Hne'. simpl. rewrite ?bool_decide_eq_true_2 by eauto. lia.
  - intros (z & Hint & _)%Hforward.
    apply count_dot_normalized. eapply int_no_dot, Hint.
Qed.

Lemma remove_count_comm (k : Z) (v : string) :
  remove_count "." k (remove_count "," (-1) v)
  = remove_count "," (-1) (remove_count "." k v).
Proof.
  revert k. induction v as [|c v IH]; intros k; [done|].
  destruct (Ascii.eqb c ",") eqn:Hcomma.
  - apply Ascii.eqb_eq in Hcomma. subst c. simpl. apply IH.
  - destruct (Ascii.eqb c ".") eqn:Hdot.
    + apply Ascii.eqb_eq in Hdot. subst c. simpl.
      destruct (k =? 0)%Z; simpl; [by rewrite IH|apply IH].
    + simpl. rewrite Hcomma, Hdot. simpl. rewrite Hcomma, Hdot. simpl. by rewrite IH.
Qed.

Lemma normalize_number_commas val :
  normalize_number (remove_commas val) = normalize_number val.
Proof.
  unfold normalize_number, remove_commas.
  rewrite count_char_remove_other by discriminate.
  rewrite remove_count_comm.
  rewrite (remove_count_absent "," (-1)
             (remove_count "," (-1) (remove_count "." (count_char "." val - 1) val)));
    [done|].
  apply count_char_remove_all. lia.
Qed.

(** X9.  Thousands separators are ignored wherever they stand: removing the
    commas of a text changes neither [is_integer] nor [is_float]. *)
Theorem predicates_ignore_commas (val : string) :
  is_integer (remove_commas val) = is_integer val
  /\ is_float (remove_commas val) = is_float val.
Proof.
  unfold is_float, is_integer. rewrite !normalize_number_commas. done.
Qed.

(** ** Type inference, continued *)

Lemma type_name_ltb (a b : semtype) :
  String.ltb (type_name a) (type_name b) = (name_rank a <? name_rank b)%nat.
Proof. destruct a, b; reflexivity. Qed.

Lemma max_key_max (l : list semtype) (m : semtype) :
  max_key l = Ok m ->
  In m l /\ forall x, In x l -> name_rank x <= name_rank m.
Proof.
  destruct l as [|x l]; simpl; [done|]. intros [= <-].
  revert x. induction l as [|y l IH]; intros x; simpl.
  - split; [auto|]. intros z [<-|[]]. done.
  - rewrite type_name_ltb.
    destruct (IH (if (name_rank x <? name_rank y)%nat then y else x)) as [Hin Hmax].
    split.
    + destruct Hin as [Hin|Hin]; [|auto].
      rewrite <- Hin. destruct (name_rank x <? name_rank y)%nat; auto.
    + intros z Hz.
      assert (name_rank x <= name_rank (if (name_rank x <? name_rank y)%nat then y else x)
              /\ name_rank y <= name_rank (if (name_rank x <? name_rank y)%nat then y else x))
        as [Hx Hy].
      { destruct (name_rank x <? name_rank y)%nat eqn:Hlt.
        - apply Nat.ltb_lt in Hlt. lia.
        - apply Nat.ltb_ge in Hlt. lia. }
      pose proof (Hmax _ (or_introl eq_refl)) as Hfirst.
      destruct Hz as [<-|[<-|Hz]]; [lia|lia|]. apply Hmax. by right.
Qed.

Lemma max_number_max (l : list Q) (m : Q) :
  max_number l = Ok m -> forall q, In q l -> (q <= m)%Q.
Proof.
  destruct l as [|x l]; simpl; [done|]. intros [= <-].
  assert (forall x, (x <= foldl (fun m y => if Qlt_bool m y then y else m) x l)%Q
                    /\ forall q, In q l ->
                         (q <= foldl (fun m y => if Qlt_bool m y then y else m) x l)%Q) as H.
  { induction l as [|y l IH]; intros x'; simpl.
    - split; [apply Qle_refl|]. intros q [].
    - destruct (IH (if Qlt_bool x' y then y else x')) as [Hfirst Hrest].
      assert ((x' <= (if Qlt_bool x' y then y else x'))%Q
              /\ (y <= (if Qlt_bool x' y then y else x'))%Q) as [Hx Hy].
      { destruct (Qlt_bool x' y) eqn:Hlt.
        - apply Qlt_bool_iff in Hlt. split; [by apply Qlt_le_weak|apply Qle_refl].
        - split; [apply Qle_refl|]. apply Qnot_lt_le. intros Hlt'.
          apply Qlt_bool_iff in Hlt'. congruence. }
      split; [by eapply Qle_trans|].
      intros q [<-|Hq]; [by eapply Qle_trans|]. by apply Hrest. }
  destruct (H x) as [H1 H2]. intros q [<-|Hq]; [exact H1|by apply H2].
Qed.

Section InferenceChoice.
Variable dateutil_parse : string -> option string.
Variable str : value -> string.

(** The rate of a type as the code computes it, and the dictionary of the
    rates. *)
Lemma success_rates_list sample_data :
  sample_data <> [] ->
  success_rates_of
    (counters_dict (matches dateutil_parse str INTEGER sample_data)
       (matches dateutil_parse str FLOAT sample_data)
       (matches dateutil_parse str DATE sample_data)
       (matches dateutil_parse str BOOLEAN sample_data) 0) (length sample_data)
  = Ok ((fun t => (t, Qred (success_rate dateutil_parse str t sample_data)))
          <$> [INTEGER; FLOAT; DATE; BOOLEAN; VARCHAR]).
Proof.
  intros Hne. rewrite success_rates_of_dict by (by destruct sample_data).
  set (rate := success_rate dateutil_parse str).
  change (Ok ((fun kv : semtype * nat => (kv.1, Qred (Qof_nat kv.2 / Qof_nat (length sample_data))))
                <$> counters_dict (matches dateutil_parse str INTEGER sample_data)
                      (matches dateutil_parse str FLOAT sample_data)
                      (matches dateutil_parse str DATE sample_data)
                      (matches dateutil_parse str BOOLEAN sample_data) 0)
          = Ok [(INTEGER, Qred (rate INTEGER sample_data)); (FLOAT, Qred (rate FLOAT sample_data));
                (DATE, Qred (rate DATE sample_data)); (BOOLEAN, Qred (rate BOOLEAN sample_data));
                (VARCHAR, Qred (rate VARCHAR sample_data))]).
  unfold rate at 5. unfold success_rate.
  rewrite (matches_VARCHAR dateutil_parse str sample_data). reflexivity.
Qed.

(** X10.  How the type of a column is chosen.  On a sample that is not empty the
    inference returns a type.  It is VARCHAR exactly when every rate is
    below 0.5.  Otherwise the type has the greatest rate, at least 0.5, and
    among the types with that rate the greatest name: INTEGER before FLOAT
    before DATE before BOOLEAN. *)
Theorem infer_column_type_choice conn col relation_name sample_data :
  fetch conn relation_name
    (fun r => select_distinct_not_null SAMPLE_SIZE <$> select_column col r) = Ok sample_data ->
  sample_data <> [] ->
  exists t,
    infer_column_type dateutil_parse str conn col relation_name = Ok t
    /\ (t = VARCHAR <->
        forall t', (success_rate dateutil_parse str t' sample_data < SUCCESS_THRESHOLD)%Q)
    /\ (t <> VARCHAR ->
        (SUCCESS_THRESHOLD <= success_rate dateutil_parse str t sample_data)%Q
        /\ (forall t', (success_rate dateutil_parse str t' sample_data
                        <= success_rate dateutil_parse str t sample_data)%Q)
        /\ (forall t', (success_rate dateutil_parse str t' sample_data
                        == success_rate dateutil_parse str t sample_data)%Q ->
                       name_rank t' <= name_rank t)).
Proof.
  intros Hfetch Hne.
  rewrite (infer_column_type_sample _ _ _ _ _ _ Hfetch), (success_rates_list _ Hne).
  change (Ok ?x ≫= ?f) with (f x). cbv beta.
  set (rate := success_rate dateutil_parse str) in *.
  set (rates := (fun t => (t, Qred (rate t sample_data)))
                  <$> [INTEGER; FLOAT; DATE; BOOLEAN; VARCHAR]).
  assert (forall t, In (t, Qred (rate t sample_data)) rates) as Hall
    by (intros []; unfold rates; simpl; auto 6).
  assert (forall t q, In (t, q) rates -> q = Qred (rate t sample_data)) as Hentry.
  { intros t q. unfold rates. simpl.
    intros [H|[H|[H|[H|[H|[]]]]]]; injection H as <- <-; reflexivity. }
  assert (rate VARCHAR sample_data == 0)%Q as Hvarchar.
  { unfold rate, success_rate. rewrite matches_VARCHAR. unfold Qof_nat. simpl.
    unfold Qdiv. apply Qmult_0_l. }
  destruct (max_number rates.*2) as [m|e] eqn:Hmax; [|done].
  change (Ok ?x ≫= ?f) with (f x). cbv beta.
  pose proof (max_number_max _ _ Hmax) as Hle.
  assert (forall t, (rate t sample_data <= m)%Q) as Hbound.
  { intros t. rewrite <- (Qred_correct (rate t sample_data)). apply Hle.
    apply in_map_iff. exists (t, Qred (rate t sample_data)). split; [done|apply Hall]. }
  destruct (Qlt_bool m SUCCESS_THRESHOLD) eqn:Hlow.
  - apply Qlt_bool_iff in Hlow. exists VARCHAR. split; [done|]. split; [|done].
    split; [|done]. intros _ t'. eapply Qle_lt_trans; [apply Hbound|exact Hlow].
  - assert (SUCCESS_THRESHOLD <= m)%Q as Hhigh.
    { apply Qnot_lt_le. intros H. apply Qlt_bool_iff in H. congruence. }
    destruct (max_key_of_maximum rates m Hmax) as [t Hkey].
    exists t. split; [exact Hkey|].
    apply max_key_max in Hkey as [Hin Hrank].
    assert (rate t sample_data == m)%Q as Hrate.
    { apply in_map_iff in Hin as ([t0 q] & Ht0 & Hq). simpl in Ht0. subst t0.
      apply filter_In in Hq as [Hq Heq]. simpl in Heq.
      apply Hentry in Hq. subst q. apply Qeq_bool_iff in Heq.
      rewrite <- Heq. symmetry. apply Qred_correct. }
    assert (t <> VARCHAR) as Hnot.
    { intros ->. rewrite Hvarchar in Hrate. rewrite <- Hrate in Hhigh.
      revert Hhigh. unfold SUCCESS_THRESHOLD. apply Qlt_not_le. reflexivity. }
    split; [split; [done|]|].
    + intros Hlow'. exfalso. specialize (Hlow' t). rewrite Hrate in Hlow'.
      by eapply Qlt_not_le.
    + intros _. split; [by rewrite Hrate|]. split.
      * intros t'. rewrite Hrate. apply Hbound.
      * intros t' Htie. apply Hrank. apply in_map_iff.
        exists (t', Qred (rate t' sample_data)). split; [done|].
        apply filter_In. split; [apply Hall|]. simpl. apply Qeq_bool_iff.
        rewrite Qred_correct, Htie. exact Hrate.
Qed.
End InferenceChoice.

(** The sample 1, 0, x: integer and boolean both match two values of three,
    and INTEGER is chosen. *)
Lemma infer_column_type_choice_witness :
  infer_column_type iso_date_parse str_of_value flag_table "flag" "t" = Ok INTEGER
  /\ exists t,
       infer_column_type iso_date_parse str_of_value flag_table "flag" "t" = Ok t
       /\ (t = VARCHAR <->
           forall t', (success_rate iso_date_parse str_of_value t'
                         [VStr "1"; VStr "0"; VStr "x"] < SUCCESS_THRESHOLD)%Q)
       /\ (t <> VARCHAR ->
           (SUCCESS_THRESHOLD <= success_rate iso_date_parse str_of_value t
                                   [VStr "1"; VStr "0"; VStr "x"])%Q
           /\ (forall t', (success_rate iso_date_parse str_of_value t'
                             [VStr "1"; VStr "0"; VStr "x"]
                           <= success_rate iso_date_parse str_of_value t
                                [VStr "1"; VStr "0"; VStr "x"])%Q)
           /\ (forall t', (success_rate iso_date_parse str_of_value t'
                             [VStr "1"; VStr "0"; VStr "x"]
                           == success_rate iso_date_parse str_of_value t
                                [VStr "1"; VStr "0"; VStr "x"])%Q ->
                          name_rank t' <= name_rank t)).
Proof.
  split; [reflexivity|].
  apply (infer_column_type_choice iso_date_parse str_of_value flag_table "flag" "t"
           [VStr "1"; VStr "0"; VStr "x"]); [reflexivity|discriminate].
Defined.

(** ** The outlier filter, continued *)














(** ** The upload identifier *)

Lemma string_app_inv_head (a x y : string) : a +:+ x = a +:+ y -> x = y.
Proof.
  induction a as [|c a IH]; [done|].
  rewrite !string_app_cons. intros [= H]. auto.
Qed.

Lemma string_app_inv_tail (a b x y : string) :
  String.length x = String.length y -> a +:+ x = b +:+ y -> a = b /\ x = y.
Proof.
  revert b. induction a as [|c a IH]; intros [|d b] Hlen.
  - rewrite !string_app_nil. done.
  - rewrite string_app_nil. intros H. apply (f_equal String.length) in H.
    rewrite string_length_app in H. simpl in H. lia.
  - rewrite string_app_nil. intros H. apply (f_equal String.length) in H.
    rewrite string_length_app in H. simpl in H. lia.
  - rewrite !string_app_cons. intros [= <- H].
    destruct (IH b Hlen H) as [-> ->]. done.
Qed.





(** X15.  Two uploads of the same file name get the same identifier only when the
    clock reading and the random suffix are the same; the suffixes have one
    length, eight characters in the code. *)
Theorem make_upload_id_injective filename timestamp1 timestamp2 suffix1 suffix2 :
  String.length suffix1 = String.length suffix2 ->
  make_upload_id filename timestamp1 suffix1 = make_upload_id filename timestamp2 suffix2 ->
  timestamp1 = timestamp2 /\ suffix1 = suffix2.
Proof.
  unfold make_upload_id. intros Hlen H.
  apply string_app_inv_head in H. rewrite !string_app_cons, !string_app_nil in H.
  injection H as H.
  apply string_app_inv_tail in H as [-> H].
  - rewrite ?string_app_cons, ?string_app_nil in H. injection H as ->. done.
  - rewrite ?string_app_cons, ?string_app_nil. simpl. by rewrite Hlen.
Qed.

Lemma make_upload_id_injective_witness :
  "1700000000" = "1700000000" /\ "k3x9q2ab" = "k3x9q2ab".
Proof.
  apply (make_upload_id_injective "data.csv" "1700000000" "1700000000" "k3x9q2ab" "k3x9q2ab");
    reflexivity.
Defined.

(** ** The catalog after an upload *)



Lemma cleaned_name_not_upload_id (upload_id : string) :
  upload_id <> ("tmp_" +:+ upload_id) +:+ "_cleaned".
Proof.
  intros H. apply (f_equal String.length) in H.
  rewrite !string_length_app in H. simpl in H. lia.
Qed.

Section PipelineCatalog.
Variable dateutil_parse : string -> option string.
Variable str : value -> string.
Variable sql_cast : string -> value -> option value.



End PipelineCatalog.


(** ** The columns after the type inference *)

Lemma column_index_absent r col :
  col ∉ (rel_columns r).*1 -> column_index r col = None.
Proof.
  intros Hnot. unfold column_index.
  destruct (list_find _ _) as [[i c]|] eqn:Hfind; [|done].
  apply list_find_Some in Hfind as (Hc & Hname & _). exfalso. apply Hnot.
  apply list_elem_of_fmap. exists c. split; [done|]. by eapply list_elem_of_lookup_2.
Qed.

Lemma column_index_first r col ty rest :
  rel_columns r = (col, ty) :: rest -> column_index r col = Some 0.
Proof. intros H. unfold column_index. rewrite H. simpl. by rewrite decide_True. Qed.

Lemma column_index_last r cols col ty :
  rel_columns r = (cols ++ [(col, ty)])%list ->
  col ∉ cols.*1 ->
  column_index r col = Some (length cols).
Proof.
  intros H Hnot. unfold column_index. rewrite H. clear H.
  induction cols as [|[c t] cols IH]; simpl.
  - by rewrite decide_True.
  - rewrite decide_False.
    + apply not_elem_of_cons in Hnot as [_ Hnot]. specialize (IH Hnot).
      destruct (list_find _ _) as [[i x]|]; simpl in *; [|done].
      injection IH as ->. done.
    + simpl. intros ->. apply Hnot. simpl. left.
Qed.

Lemma alter_last {A} (f : A -> A) (l : list A) (x : A) :
  alter f (length l) (l ++ [x])%list = (l ++ [f x])%list.
Proof. induction l as [|y l IH]; [done|]. simpl length. simpl app. cbn. f_equal. exact IH. Qed.

Lemma try_execute_Ok conn relation_name statement r r' :
  conn !! relation_name = Some r ->
  statement r = Ok r' ->
  try_execute conn relation_name statement = <[relation_name := r']> conn.
Proof. intros Hr Hs. unfold try_execute, execute. rewrite Hr, Hs. done. Qed.

Lemma execute_run conn relation_name statement r r' :
  conn !! relation_name = Some r ->
  statement r = Ok r' ->
  execute conn relation_name statement = Ok (<[relation_name := r']> conn).
Proof. intros Hr Hs. unfold execute. rewrite Hr, Hs. done. Qed.

Lemma new_name_differs (col : string) : col <> col +:+ "_new".
Proof.
  intros H. apply (f_equal String.length) in H.
  rewrite string_length_app in H. simpl in H. lia.
Qed.

Section InferredColumns.
Variable dateutil_parse : string -> option string.
Variable str : value -> string.
Variable sql_cast : string -> value -> option value.

(** One column migrated, when it is the first column, its name is not used
    twice and the name of its replacement is free: the column moves to the
    end under its name, stored as the inferred type. *)
Lemma set_datatype_columns relation_name conn inferred col ty0 rest conn' inferred' r :
  conn !! relation_name = Some r ->
  rel_columns r = (col, ty0) :: rest ->
  col ∉ rest.*1 ->
  col +:+ "_new" ∉ rest.*1 ->
  set_datatype dateutil_parse str sql_cast relation_name (conn, inferred) col
    = Ok (conn', inferred') ->
  exists ty r',
    inferred' = (inferred ++ [(col, ty)])%list
    /\ conn' !! relation_name = Some r'
    /\ rel_columns r' = (rest ++ [(col, type_name ty)])%list
    /\ row_count r' = row_count r.
Proof.
  intros Hr Hcols Hfresh Hnew Hrun. unfold set_datatype in Hrun.
  apply bind_Ok in Hrun as (ty & _ & Hrun).
  apply bind_Ok in Hrun as (repl & _ & Hrun).
  injection Hrun as <- <-. exists ty.
  pose proof (new_name_differs col) as Hdiff.
  set (ra := Relation (rel_columns r ++ [(col +:+ "_new", type_name ty)])%list
               ((fun row => row ++ [None])%list <$> rel_rows r)).
  assert (sql_add_column (col +:+ "_new") (type_name ty) r = Ok ra) as Hadd.
  { unfold sql_add_column. rewrite column_index_absent; [done|].
    rewrite Hcols. simpl. apply not_elem_of_cons. split; [congruence|done]. }
  rewrite (try_execute_Ok conn relation_name _ r ra Hr Hadd).
  destruct (try_execute_invariant
              (fun r' => rel_columns r' = rel_columns ra /\ row_count r' = row_count ra)
              (<[relation_name := ra]> conn) relation_name
              (update_statement dateutil_parse str sql_cast col ty repl) ra)
    as (ru & Hru & Hcu & Hrowu); [apply lookup_insert_eq|done| |].
  { intros r' Hupd. unfold update_statement in Hupd.
    destruct ty, repl; try discriminate; by apply sql_update_Ok in Hupd. }
  match goal with |- context [execute ?c relation_name _] => set (cu := c) in * end.
  set (rd := Relation (delete 0%nat (rel_columns ru)) (delete 0%nat <$> rel_rows ru)).
  assert (rel_columns ru = (col, ty0) :: (rest ++ [(col +:+ "_new", type_name ty)])%list)
    as Hcols_u by (rewrite Hcu; unfold ra; simpl; by rewrite Hcols).
  assert (sql_drop_column col ru = Ok rd) as Hdrop.
  { unfold sql_drop_column. by rewrite (column_index_first ru col ty0 _ Hcols_u). }
  rewrite (execute_run cu relation_name _ ru rd Hru Hdrop).
  assert (rel_columns rd = (rest ++ [(col +:+ "_new", type_name ty)])%list) as Hcols_d
    by (unfold rd; simpl; by rewrite Hcols_u).
  set (rn := Relation (rest ++ [(col, type_name ty)])%list (rel_rows rd)).
  assert (sql_rename_column (col +:+ "_new") col rd = Ok rn) as Hren.
  { unfold sql_rename_column.
    rewrite (column_index_last rd rest _ _ Hcols_d Hnew).
    rewrite column_index_absent.
    - rewrite Hcols_d, alter_last. done.
    - rewrite Hcols_d, fmap_app. simpl. intros [H|H]%elem_of_app; [done|].
      apply list_elem_of_singleton in H. done. }
  rewrite (try_execute_Ok _ relation_name _ rd rn (lookup_insert_eq _ _ _) Hren).
  exists rn. split; [done|]. split; [apply lookup_insert_eq|]. split; [done|].
  unfold row_count in *. unfold rn, rd. simpl. rewrite length_fmap.
  rewrite Hrowu. unfold ra. simpl. by rewrite length_fmap.
Qed.

Lemma set_datatype_loop relation_name : forall todo migrated conn inferred r conn' inferred',
  conn !! relation_name = Some r ->
  rel_columns r = (todo ++ migrated)%list ->
  NoDup ((todo ++ migrated)%list).*1 ->
  (forall c, c ∈ ((todo ++ migrated)%list).*1 ->
             c +:+ "_new" ∉ ((todo ++ migrated)%list).*1) ->
  for_each (set_datatype dateutil_parse str sql_cast relation_name) (conn, inferred) todo.*1
    = Ok (conn', inferred') ->
  exists new r',
    inferred' = (inferred ++ new)%list
    /\ new.*1 = todo.*1
    /\ conn' !! relation_name = Some r'
    /\ rel_columns r' = (migrated ++ described_as new)%list
    /\ row_count r' = row_count r.
Proof.
  induction todo as [|[col ty0] todo IH];
    intros migrated conn inferred r conn' inferred' Hr Hcols Hnodup Hfree Hrun.
  - injection Hrun as <- <-. exists [], r. rewrite !app_nil_r. done.
  - simpl in Hrun. apply bind_Ok in Hrun as ([conn1 inferred1] & Hstep & Hrun).
    simpl in Hnodup. apply NoDup_cons in Hnodup as [Hfresh Hnodup].
    assert (col +:+ "_new" ∉ ((todo ++ migrated)%list).*1) as Hnew.
    { intros H. apply (Hfree col); [simpl; left|]. simpl. by right. }
    destruct (set_datatype_columns _ _ _ _ _ _ _ _ _ Hr Hcols Hfresh Hnew Hstep)
      as (ty & r1 & -> & Hr1 & Hcols1 & Hrows1).
    assert ((((todo ++ migrated) ++ [(col, type_name ty)])%list).*1
            ≡ₚ (((col, ty0) :: todo ++ migrated)%list).*1) as Hperm.
    { rewrite fmap_app. simpl. by rewrite <- Permutation_cons_append. }
    rewrite <- app_assoc in Hcols1.
    destruct (IH (migrated ++ [(col, type_name ty)])%list conn1
                (inferred ++ [(col, ty)])%list r1 conn' inferred' Hr1 Hcols1)
      as (new & r' & -> & Hnames & Hr' & Hcols' & Hrows'); [| |exact Hrun|].
    + rewrite app_assoc, Hperm. simpl. by apply NoDup_cons.
    + intros c. rewrite app_assoc, Hperm. apply Hfree.
    + exists ((col, ty) :: new), r'. rewrite <- app_assoc. simpl.
      split; [done|]. split; [by f_equal|]. split; [done|].
      split; [|congruence].
      rewrite Hcols', <- app_assoc. done.
Qed.

(** X17.  What the inference leaves behind.  On a relation whose column names are
    distinct and none of which is another name followed by [_new], a run that
    returns gives the relation name back, lists the columns under their
    names and in their order, and leaves the relation with exactly these
    columns, each stored as its inferred type, and with as many rows as
    before. *)
Theorem infer_and_set_datatypes_columns conn relation_name r conn' out inferred_columns :
  conn !! relation_name = Some r ->
  NoDup (rel_columns r).*1 ->
  (forall c, c ∈ (rel_columns r).*1 -> c +:+ "_new" ∉ (rel_columns r).*1) ->
  infer_and_set_datatypes dateutil_parse str sql_cast conn relation_name
    = Ok (conn', (out, inferred_columns)) ->
  out = relation_name
  /\ inferred_columns.*1 = (rel_columns r).*1
  /\ exists r',
       conn' !! relation_name = Some r'
       /\ rel_columns r' = described_as inferred_columns
       /\ row_count r' = row_count r.
Proof.
  intros Hr Hnodup Hfree Hrun. unfold infer_and_set_datatypes in Hrun.
  destruct (negb _); [discriminate|].
  apply bind_Ok in Hrun as (columns & Hcolumns & Hrun).
  unfold get_columns, fetch in Hcolumns. rewrite Hr in Hcolumns. injection Hcolumns as <-.
  apply bind_Ok in Hrun as ([conn1 inferred] & Hloop & [= <- <- <-]).
  destruct (set_datatype_loop relation_name (rel_columns r) [] conn [] r conn1 inferred Hr)
    as (new & r' & -> & Hnames & Hr' & Hcols' & Hrows');
    rewrite ?app_nil_r; try done.
  split; [done|]. split; [done|]. exists r'. done.
Qed.
End InferredColumns.

(** The sheet of ages and names passes the inference, and its columns are
    as described. *)
Lemma infer_and_set_datatypes_columns_witness :
  match infer_and_set_datatypes iso_date_parse str_of_value simple_cast
          {["t" := ages_table]} "t" with
  | Ok (conn', (out, inferred_columns)) =>
      out = "t"
      /\ inferred_columns.*1 = ["age"; "name"]
      /\ exists r',
           conn' !! "t" = Some r'
           /\ rel_columns r' = described_as inferred_columns
           /\ row_count r' = 3
  | Raise _ => False
  end.
Proof.
  assert (is_Ok (infer_and_set_datatypes iso_date_parse str_of_value simple_cast
                   {["t" := ages_table]} "t") = true) as Hreturns
    by (vm_compute; reflexivity).
  destruct (infer_and_set_datatypes iso_date_parse str_of_value simple_cast
              {["t" := ages_table]} "t")
    as [[conn' [out inferred_columns]]|e] eqn:Hrun; [|discriminate].
  apply (infer_and_set_datatypes_columns iso_date_parse str_of_value simple_cast
           {["t" := ages_table]} "t" ages_table conn' out inferred_columns);
    [vm_compute; reflexivity| | |exact Hrun].
  - apply (bool_decide_unpack _). vm_compute. exact I.
  - intros c Hc. apply list_elem_of_In in Hc. simpl in Hc.
    destruct Hc as [<-|[<-|[]]]; apply (bool_decide_unpack _); vm_compute; exact I.
Defined.
